(** * Efficient-Tuning-LLMs: prompt handling, checkpoint bookkeeping,
      LoRA layer discovery and the streaming demo server

    A shallow embedding of [src/gradio_qlora_webserver.py] and
    [src/chatllms/utils/model_utils.py], with the properties of the
    specification stated over it. *)

From Stdlib Require Import ZArith NArith String Ascii Lia QArith.
From stdpp Require Import gmap strings list.

Set Warnings "-register-all,-clear-no-such-hyp".
Local Open Scope nat_scope.

(** * Python text

    A Python [str] is a sequence of Unicode code points. *)

Module Text.

Abbreviation char := N (only parsing).
Abbreviation str := (list N) (only parsing).

(** An ASCII literal as a [str]. *)
Definition lit (s : string) : str :=
  map N_of_ascii (list_ascii_of_string s).

Definition nl : N := 10%N.

(** [c.isspace()] for a single code point (CPython's
    [_PyUnicode_IsWhitespace]). *)
Definition is_space (c : N) : bool :=
  ((9 <=? c) && (c <=? 13) || (28 <=? c) && (c <=? 32)
   || (c =? 133) || (c =? 160) || (c =? 5760)
   || (8192 <=? c) && (c <=? 8202)
   || (c =? 8232) || (c =? 8233) || (c =? 8239) || (c =? 8287)
   || (c =? 12288))%N.

Fixpoint lstrip (s : str) : str :=
  match s with
  | c :: s' => if is_space c then lstrip s' else s
  | [] => []
  end.

Definition rstrip (s : str) : str := rev (lstrip (rev s)).

(** [s.strip()] *)
Definition strip (s : str) : str := rstrip (lstrip s).

Definition str_eqb (a b : str) : bool := bool_decide (a = b).

(** [s.startswith(p)] *)
Fixpoint startswith (p s : str) : bool :=
  match p, s with
  | [], _ => true
  | a :: p', b :: s' => (a =? b)%N && startswith p' s'
  | _ :: _, [] => false
  end.

(** [sub in s] *)
Fixpoint contains (sub s : str) : bool :=
  startswith sub s ||
  match s with
  | [] => false
  | _ :: s' => contains sub s'
  end.

(** [s.split(sep)] for a non-empty [sep] (Python raises [ValueError] on an
    empty separator; every call site below passes a non-empty literal).
    The text is scanned left to right; [skip] counts the characters of a
    separator just matched that are still to be passed over, [cur] holds
    the current piece in reverse. *)
Fixpoint split_go (sep s : str) (skip : nat) (cur : str) : list str :=
  match s with
  | [] => [rev cur]
  | c :: s' =>
      match skip with
      | S k => split_go sep s' k cur
      | O =>
          if startswith sep s
          then rev cur :: split_go sep s' (length sep - 1) []
          else split_go sep s' 0 (c :: cur)
      end
  end.

Definition split (sep s : str) : list str := split_go sep s 0 [].

(** [new.join(pieces)] *)
Fixpoint join (new : str) (pieces : list str) : str :=
  match pieces with
  | [] => []
  | [p] => p
  | p :: ps => p ++ new ++ join new ps
  end.

(** [s.replace(old, new)] for a non-empty [old]: every non-overlapping
    occurrence, leftmost first, is replaced. *)
Definition replace (old new s : str) : str := join new (split old s).

(** [sep] occurs in [s] at offset [i]. *)
Definition occurs_at (sep s : str) (i : nat) : Prop :=
  startswith sep (drop i s) = true.

End Text.

Import Text.

(** * Python exceptions and results *)

Inductive exn :=
  | IndexError
  | KeyError
  | ValueError
  | AttributeError
  | UnboundLocalError
  | OSError (errno : Z)
  | ModelError (code : Z).

Inductive result (A : Type) :=
  | Ok (a : A)
  | Raise (e : exn).
Arguments Ok {A} a.
Arguments Raise {A} e.

Definition bind {A B} (r : result A) (k : A -> result B) : result B :=
  match r with
  | Ok a => k a
  | Raise e => Raise e
  end.

Notation "'let*' x ':=' r 'in' k" := (bind r (fun x => k))
  (at level 10, x name, r at level 100, k at level 200).

(** * Prompter ([gradio_qlora_webserver.py]) *)

Module Prompter.

(** Replacement fields of the format strings. *)
Inductive field := Instruction | Input.

Inductive piece :=
  | Lit (s : str)
  | Field (f : field).

Definition template := list piece.

Record prompt_dict := {
  prompt_input : template;
  prompt_no_input : template
}.

Definition ALPACA_PROMPT_DICT : prompt_dict := {|
  prompt_input :=
    [ Lit (lit "Below is an instruction that describes a task, paired with an input that provides further context. "
           ++ lit "Write a response that appropriately completes the request." ++ [nl; nl]
           ++ lit "### Instruction:" ++ [nl]);
      Field Instruction;
      Lit ([nl; nl] ++ lit "### Input:" ++ [nl]);
      Field Input;
      Lit ([nl; nl] ++ lit "### Response:") ];
  prompt_no_input :=
    [ Lit (lit "Below is an instruction that describes a task. "
           ++ lit "Write a response that appropriately completes the request." ++ [nl; nl]
           ++ lit "### Instruction:" ++ [nl]);
      Field Instruction;
      Lit ([nl; nl] ++ lit "### Response:") ]
|}.

Definition PROMPT_DICT : prompt_dict := {|
  prompt_input := [ Field Instruction; Lit ([nl; nl] ++ lit "### Response:") ];
  prompt_no_input := [ Field Instruction; Lit ([nl; nl] ++ lit "### Response:") ]
|}.

(** [tpl.format(instruction=.., input=..)]; the keyword [input] is absent
    when [input = None], and a template that names an absent keyword
    raises [KeyError]. *)
Fixpoint format (tpl : template) (instruction : str) (input : option str)
  : result str :=
  match tpl with
  | [] => Ok []
  | Lit s :: tpl' =>
      let* rest := format tpl' instruction input in Ok (s ++ rest)
  | Field Instruction :: tpl' =>
      let* rest := format tpl' instruction input in Ok (instruction ++ rest)
  | Field Input :: tpl' =>
      match input with
      | Some i => let* rest := format tpl' instruction input in Ok (i ++ rest)
      | None => Raise KeyError
      end
  end.

Record t := {
  dict : prompt_dict;
  reponse_split : str
}.

(** [Prompter.__init__] *)
Definition init (prompt_template : option str) : t := {|
  dict :=
    match prompt_template with
    | Some name =>
        if str_eqb name (lit "alpaca") then ALPACA_PROMPT_DICT else PROMPT_DICT
    | None => PROMPT_DICT
    end;
  reponse_split := lit "### Response:"
|}.

(** [Prompter.generate_prompt] *)
Definition generate_prompt (self : t) (instruction : str)
    (input : option str) (response : option str) : result str :=
  let* prompt_text :=
    match input with
    | Some i => format (prompt_input (dict self)) instruction (Some i)
    | None => format (prompt_no_input (dict self)) instruction None
    end in
  match response with
  | Some (c :: r) => Ok (prompt_text ++ c :: r)
  | _ => Ok prompt_text
  end.

(** [Prompter.get_response]: [output.split(sep)[1].strip()] *)
Definition get_response (self : t) (output : str) : result str :=
  match split (reponse_split self) output with
  | _ :: p :: _ => Ok (strip p)
  | _ => Raise IndexError
  end.

End Prompter.

(** * The demo server ([gradio_qlora_webserver.py], [main]) *)

Module Server.

(** [transformers.GenerationConfig] as [evaluate] builds it. *)
Record GenerationConfig := {
  cfg_temperature : Q;
  cfg_top_p : Q;
  cfg_top_k : Q;
  cfg_num_beams : Q;
  cfg_do_sample : bool
}.

(** The arguments of [evaluate]. *)
Record request := {
  instruction : str;
  input : option str;
  temperature : Q;
  top_p : Q;
  top_k : Q;
  num_beams : Q;
  max_new_tokens : Q;
  stream_output : bool
}.

Section evaluate.

(** The callback handed to the worker function by the streaming adapter. *)
Variable Callback : Type.

(** Entries of a [transformers.StoppingCriteriaList]. *)
Inductive criterion :=
  | Stream (callback_func : option Callback)
  | OtherCriterion (id : nat).

(** Values of the keyword arguments of [model.generate]. *)
Inductive pyval :=
  | VIds (ids : list Z)
  | VConfig (c : GenerationConfig)
  | VBool (b : bool)
  | VNum (n : Q)
  | VCriteria (l : list criterion).

(** What one blocking [model.generate] call does: the cumulative token
    sequences its step hooks are shown, one per decoding step, and the
    sequence it returns ([sequences[0]]) or the exception it raises. *)
Record generation := {
  steps : list (list Z);
  final : result (list Z)
}.

(** The tokenizer's encoding of a prompt. *)
Record encoding := {
  input_ids : list Z;
  attention_mask : list Z
}.

Variable tokenizer : str -> encoding.
Variable tokenizer_decode : list Z -> str.
Variable eos_token_id : Z.
Variable model_generate : gmap string pyval -> generation.

(** Observable actions of one [evaluate] call. *)
Inductive effect :=
  | EIteratorize (kwargs : gmap string pyval)
  | EGenerate (kwargs : gmap string pyval).

(** [generate_with_callback(callback, **kwargs)]: the calls made to
    [model.generate], and what the call did. *)
Definition generate_with_callback (callback : option Callback)
    (kwargs : gmap string pyval)
  : list (gmap string pyval) * result generation :=
  let kwargs :=
    match kwargs !! "stopping_criteria" with
    | Some _ => kwargs
    | None => <["stopping_criteria" := VCriteria []]> kwargs
    end in
  match kwargs !! "stopping_criteria" with
  | Some (VCriteria l) =>
      let kwargs :=
        <["stopping_criteria" := VCriteria (l ++ [Stream callback])]> kwargs in
      ([kwargs], Ok (model_generate kwargs))
  | Some _ => ([], Raise AttributeError)
  | None => ([], Raise KeyError)
  end.

(** What the generator hands to the [for] loop: the outputs in order and
    how the iteration ends. *)
Record stream := {
  outputs : list (list Z);
  ending : result unit
}.

(** Modelled from the spec: [Iteratorize] and [Stream] of
    [chatllms/utils/stream_server.py] are not among the sources.  Per the
    spec (4.1, 4.2, 4.4) the adapter runs the worker function once with
    its callback bridge, hands every step output to the consumer in
    production order, then ends the sequence cleanly on normal completion
    or re-raises the exception of the blocking call. *)
Definition Iteratorize
    (func : option Callback -> gmap string pyval ->
            list (gmap string pyval) * result generation)
    (kwargs : gmap string pyval) (bridge : Callback)
  : list (gmap string pyval) * stream :=
  match func (Some bridge) kwargs with
  | (calls, Ok g) =>
      (calls, {| outputs := steps g;
                 ending := match final g with
                           | Ok _ => Ok tt
                           | Raise e => Raise e
                           end |})
  | (calls, Raise e) => (calls, {| outputs := []; ending := Raise e |})
  end.

Variable bridge : Callback.

Definition prompter : Prompter.t := Prompter.init None.

(** The body of [for output in generator] in [evaluate]: the chunks
    yielded and how the loop ends. *)
Fixpoint consume (outs : list (list Z)) (ending : result unit)
  : list str * result unit :=
  match outs with
  | [] => ([], ending)
  | output :: rest =>
      let decoded_output := tokenizer_decode output in
      match last output with
      | None => ([], Raise IndexError)
      | Some t =>
          if (t =? eos_token_id)%Z then ([], Ok tt)
          else
            match Prompter.get_response prompter decoded_output with
            | Raise e => ([], Raise e)
            | Ok chunk =>
                let '(chunks, r) := consume rest ending in
                (chunk :: chunks, r)
            end
      end
  end.

Record run := {
  effects : list effect;
  yields : list str;
  outcome : result unit
}.

Definition evaluate (req : request) : run :=
  match Prompter.generate_prompt prompter (instruction req) (input req) None with
  | Raise e => {| effects := []; yields := []; outcome := Raise e |}
  | Ok prompt =>
      let inputs := tokenizer prompt in
      let generation_config := {|
        cfg_temperature := temperature req;
        cfg_top_p := top_p req;
        cfg_top_k := top_k req;
        cfg_num_beams := num_beams req;
        cfg_do_sample := true |} in
      let generate_params : gmap string pyval :=
        <["input_ids" := VIds (input_ids inputs)]>
        (<["generation_config" := VConfig generation_config]>
        (<["return_dict_in_generate" := VBool true]>
        (<["output_scores" := VBool true]>
        (<["max_new_tokens" := VNum (max_new_tokens req)]> ∅)))) in
      if stream_output req then
        let '(calls, generator) :=
          Iteratorize generate_with_callback generate_params bridge in
        let '(chunks, r) := consume (outputs generator) (ending generator) in
        {| effects := EIteratorize generate_params :: map EGenerate calls;
           yields := chunks;
           outcome := r |}
      else
        let kwargs : gmap string pyval :=
          <["input_ids" := VIds (input_ids inputs)]>
          (<["attention_mask" := VIds (attention_mask inputs)]>
          (<["generation_config" := VConfig generation_config]>
          (<["return_dict_in_generate" := VBool true]>
          (<["output_scores" := VBool true]>
          (<["max_new_tokens" := VNum (max_new_tokens req)]> ∅))))) in
        match final (model_generate kwargs) with
        | Raise e =>
            {| effects := [EGenerate kwargs]; yields := []; outcome := Raise e |}
        | Ok s =>
            let output := tokenizer_decode s in
            match Prompter.get_response prompter output with
            | Raise e =>
                {| effects := [EGenerate kwargs]; yields := [];
                   outcome := Raise e |}
            | Ok response =>
                {| effects := [EGenerate kwargs]; yields := [response];
                   outcome := Ok tt |}
            end
        end
  end.

End evaluate.

Arguments Stream {Callback} callback_func.
Arguments OtherCriterion {Callback} id.
Arguments VIds {Callback} ids.
Arguments VConfig {Callback} c.
Arguments VBool {Callback} b.
Arguments VNum {Callback} n.
Arguments VCriteria {Callback} l.
Arguments EIteratorize {Callback} kwargs.
Arguments EGenerate {Callback} kwargs.
Arguments effects {Callback} r.
Arguments yields {Callback} r.
Arguments outcome {Callback} r.

(** ** The input components of the interface *)

(** [gr.components.Slider]: its range, its step if one is given, and the
    value it starts at. *)
Record Slider := {
  minimum : Q;
  maximum : Q;
  step : option Q;
  value : Q
}.

Definition temperature_slider : Slider :=
  {| minimum := 0; maximum := 1; step := None; value := 1 |}.
Definition top_p_slider : Slider :=
  {| minimum := 0; maximum := 1; step := None; value := 1 |}.
Definition top_k_slider : Slider :=
  {| minimum := 0; maximum := 100; step := Some 1%Q; value := 50 |}.
Definition beams_slider : Slider :=
  {| minimum := 1; maximum := 4; step := Some 1%Q; value := 4 |}.
Definition max_new_tokens_slider : Slider :=
  {| minimum := 16; maximum := 1024; step := Some 32%Q; value := 128 |}.

End Server.

(** * Model utilities ([chatllms/utils/model_utils.py]) *)

Module ModelUtils.

(** ** [int] and decimal formatting *)

Definition digit_of (c : N) : option Z :=
  if ((48 <=? c) && (c <=? 57))%N then Some (Z.of_N (c - 48)) else None.

(** The digits of an integer literal: decimal digits, single underscores
    allowed between two digits. *)
Fixpoint parse_digits (s : str) (acc : Z) (after_digit : bool) : option Z :=
  match s with
  | [] => if after_digit then Some acc else None
  | c :: s' =>
      if (c =? 95)%N then
        if after_digit then
          match s' with
          | [] => None
          | _ => parse_digits s' acc false
          end
        else None
      else
        match digit_of c with
        | Some d => parse_digits s' (10 * acc + d) true
        | None => None
        end
  end.

(** [Py_ISSPACE]: the whitespace of the C locale. *)
Definition c_isspace (c : N) : bool :=
  ((9 <=? c) && (c <=? 13) || (c =? 32))%N.

Fixpoint c_lstrip (s : str) : str :=
  match s with
  | c :: s' => if c_isspace c then c_lstrip s' else s
  | [] => []
  end.

Definition c_strip (s : str) : str := rev (c_lstrip (rev (c_lstrip s))).

(** The first code points of the runs of ten decimal digits, 0 to 9 in
    order (the characters with a decimal value in Unicode 14.0). *)
Definition decimal_runs : list N :=
  [ 48; 1632; 1776; 1984; 2406; 2534; 2662; 2790; 2918; 3046; 3174; 3302;
    3430; 3558; 3664; 3792; 3872; 4160; 4240; 6112; 6160; 6470; 6608; 6784;
    6800; 6992; 7088; 7232; 7248; 42528; 43216; 43264; 43472; 43504; 43600;
    44016; 65296; 66720; 68912; 69734; 69872; 69942; 70096; 70384; 70736;
    70864; 71248; 71360; 71472; 71904; 72016; 72784; 73040; 73120; 92768;
    92864; 93008; 120782; 120792; 120802; 120812; 120822; 123200; 123632;
    125264; 130032 ]%N.

(** [Py_UNICODE_TODECIMAL] *)
Definition to_decimal (c : N) : option N :=
  match List.find (fun b => (b <=? c) && (c <? b + 10))%N decimal_runs with
  | Some b => Some (c - b)%N
  | None => None
  end.

(** What [int] makes of one code point before it parses
    ([_PyUnicode_TransformDecimalAndSpaceToASCII]): code points below
    127 stay, other whitespace becomes a space, other decimal digits
    become ASCII digits, anything else a question mark (CPython drops what
    follows it, which no longer matters to the parse). *)
Definition to_ascii (c : N) : N :=
  if (c <? 127)%N then c
  else if is_space c then 32%N
  else
    match to_decimal c with
    | Some d => (48 + d)%N
    | None => 63%N
    end.

(** [int(s)] on text ([PyLong_FromString], base 10): whitespace of the C
    locale around an optional sign and decimal digits.  The interpreter's
    guard against texts of more than 4300 digits
    ([sys.set_int_max_str_digits]) is not part of the model; the
    statements that depend on it bound the length of the text. *)
Definition int_of_str (s : str) : result Z :=
  let t := c_strip (map to_ascii s) in
  let '(negative, body) :=
    match t with
    | c :: b =>
        if (c =? 45)%N then (true, b)
        else if (c =? 43)%N then (false, b)
        else (false, t)
    | [] => (false, t)
    end in
  match parse_digits body 0 false with
  | Some n => Ok (if negative then (- n)%Z else n)
  | None => Raise ValueError
  end.

Fixpoint digits_go (fuel : nat) (n : N) (acc : str) : str :=
  match fuel with
  | O => acc
  | S fuel' =>
      let acc' := (48 + n mod 10)%N :: acc in
      if (n <? 10)%N then acc' else digits_go fuel' (n / 10)%N acc'
  end.

(** The decimal digits of a natural number, most significant first. *)
Definition str_of_N (n : N) : str := digits_go (S (N.to_nat (N.log2 n))) n [].

(** [f'{z}'] for an [int]. *)
Definition str_of_Z (z : Z) : str :=
  match z with
  | Zneg p => 45%N :: str_of_N (Npos p)
  | _ => str_of_N (Z.to_N z)
  end.

(** ** [get_last_checkpoint] *)

(** The file-system queries the function makes.  [os.path.isdir] and
    [os.path.exists] answer [False] where they cannot look; [os.listdir]
    raises ([PermissionError] and the other [OSError]s, [ValueError] on an
    embedded null character). *)
Record filesystem := {
  isdir : str -> bool;
  exists_ : str -> bool;
  listdir : str -> result (list str)
}.

Definition endswith_sep (path : str) : bool :=
  match last path with
  | Some c => (c =? 47)%N
  | None => false
  end.

(** [os.path.join(a, b)] (POSIX). *)
Definition path_join (a b : str) : str :=
  if startswith (lit "/") b then b
  else if bool_decide (a = []) || endswith_sep a then a ++ b
  else a ++ lit "/" ++ b.

(** The loop over [os.listdir(checkpoint_dir)]. *)
Fixpoint scan_checkpoints (fs : filesystem) (checkpoint_dir : str)
    (names : list str) (max_step : Z) : result Z :=
  match names with
  | [] => Ok max_step
  | filename :: rest =>
      if isdir fs (path_join checkpoint_dir filename)
         && startswith (lit "checkpoint") filename
      then
        let* step := int_of_str (replace (lit "checkpoint-") [] filename) in
        scan_checkpoints fs checkpoint_dir rest (Z.max max_step step)
      else scan_checkpoints fs checkpoint_dir rest max_step
  end.

Definition get_last_checkpoint (fs : filesystem) (checkpoint_dir : str)
  : result (option str * bool) :=
  if isdir fs checkpoint_dir then
    let is_completed := exists_ fs (path_join checkpoint_dir (lit "completed")) in
    if is_completed then Ok (None, true)
    else
      let* names := listdir fs checkpoint_dir in
      let* max_step := scan_checkpoints fs checkpoint_dir names 0 in
      if (max_step =? 0)%Z then Ok (None, is_completed)
      else
        let checkpoint_dir :=
          path_join checkpoint_dir (lit "checkpoint-" ++ str_of_Z max_step) in
        Ok (Some checkpoint_dir, is_completed)
  else Ok (None, false).

(** ** [find_all_linear_names] *)

(** The module classes the function distinguishes. *)
Inductive py_class :=
  | Linear
  | Linear4bit
  | LinearFP4
  | LinearNF4
  | Linear8bitLt
  | OtherClass.

Definition class_eqb (a b : py_class) : bool :=
  match a, b with
  | Linear, Linear | Linear4bit, Linear4bit | LinearFP4, LinearFP4
  | LinearNF4, LinearNF4 | Linear8bitLt, Linear8bitLt
  | OtherClass, OtherClass => true
  | _, _ => false
  end.

(** The direct base class, as [torch.nn] and [bitsandbytes.nn] declare
    them. *)
Definition base_class (c : py_class) : option py_class :=
  match c with
  | Linear4bit | Linear8bitLt => Some Linear
  | LinearFP4 | LinearNF4 => Some Linear4bit
  | Linear | OtherClass => None
  end.

Definition issubclass (c target : py_class) : bool :=
  class_eqb c target ||
  match base_class c with
  | Some b =>
      class_eqb b target ||
      match base_class b with
      | Some b' => class_eqb b' target
      | None => false
      end
  | None => false
  end.

(** A [torch.nn.Module]: the identity of the object, its class and its
    named children (the entries of [_modules] that are not [None]).  One
    object registered under several names appears each time with the same
    identity. *)
Inductive module :=
  | Module (ident : N) (cls : py_class) (children : list (str * module)).

Definition module_class (m : module) : py_class :=
  match m with Module _ c _ => c end.

Definition isinstance (m : module) (cls : py_class) : bool :=
  issubclass (module_class m) cls.

Definition submodule_prefix (prefix name : str) : str :=
  prefix ++ (match prefix with [] => [] | _ => lit "." end) ++ name.

(** [module.named_modules(memo, prefix)]: a module already in [memo] is
    skipped with all below it; otherwise it is added to [memo] and listed
    under [prefix], followed by its children's listings under dotted
    names.  The listing and the memo afterwards. *)
Fixpoint named_modules (memo : gset N) (prefix : str) (m : module)
  : list (str * module) * gset N :=
  match m with
  | Module ident _ children =>
      if bool_decide (ident ∈ memo) then ([], memo)
      else
        let memo := {[ ident ]} ∪ memo in
        let '(below, memo) :=
          (fix descend (cs : list (str * module)) (memo : gset N)
             : list (str * module) * gset N :=
             match cs with
             | [] => ([], memo)
             | (name, c) :: cs' =>
                 let '(l, memo) :=
                   named_modules memo (submodule_prefix prefix name) c in
                 let '(l', memo) := descend cs' memo in
                 (l ++ l', memo)
             end) children memo in
        ((prefix, m) :: below, memo)
  end.

(** [names[0] if len(names) == 1 else names[-1]] *)
Definition short_name (names : list str) : result str :=
  match names with
  | [n] => Ok n
  | _ =>
      match last names with
      | Some n => Ok n
      | None => Raise IndexError
      end
  end.

(** The loop over [model.named_modules()]; [cls] is [None] while the
    local variable is unbound. *)
Fixpoint collect_names (cls : option py_class) (mods : list (str * module))
    (lora_module_names : gset (list N)) : result (gset (list N)) :=
  match mods with
  | [] => Ok lora_module_names
  | (name, m) :: rest =>
      match cls with
      | None => Raise UnboundLocalError
      | Some c =>
          if isinstance m c then
            let* n := short_name (split (lit ".") name) in
            collect_names cls rest ({[ n ]} ∪ lora_module_names)
          else collect_names cls rest lora_module_names
      end
  end.

Definition find_all_linear_names (bits : Z) (model : module)
  : result (list str) :=
  let cls :=
    if (bits =? 4)%Z then Some Linear4bit
    else if (bits =? 8)%Z then Some Linear8bitLt
    else None in
  let* lora_module_names :=
    collect_names cls (named_modules ∅ [] model).1 ∅ in
  let lora_module_names :=
    if bool_decide (lit "lm_head" ∈ lora_module_names)
    then lora_module_names ∖ {[ lit "lm_head" ]}
    else lora_module_names in
  Ok (elements lora_module_names).

End ModelUtils.

(** * The streaming generation adapter

    The adapter of the demo server lives in
    [chatllms/utils/stream_server.py], which is not among the sources;
    every definition of this module is modelled from sections 3 to 5 of
    the specification: a worker lane that runs the blocking call once,
    the callback bridge, a handoff channel of capacity one and the
    consumer's iteration wrapper, as two lines of execution interleaved
    by a schedule. *)

Module Adapter.

(** Modelled from the spec: what the handoff channel of the missing
    [stream_server.py] carries (4.3). *)
Inductive item :=
  | StepOutput (toks : list Z)
  | NormalCompletion
  | Exception (e : exn)
  | StopAcknowledged.

(** Modelled from the spec: the blocking generation call handed to the
    missing adapter, as it would run if never stopped: the cumulative
    outputs of its decoding steps and its normal or exceptional end
    (3, 4.1). *)
Record call := {
  todo : list (list Z);
  ending : result unit
}.

(** Modelled from the spec: the terminal marker the worker lane of the
    missing adapter publishes for a finished call (4.1). *)
Definition marker (r : result unit) : item :=
  match r with
  | Ok _ => NormalCompletion
  | Raise e => Exception e
  end.

(** Modelled from the spec: where the worker lane of the missing adapter
    stands (4.1, 4.2): inside the blocking call between two steps, in the
    bridge about to push a step output, in the bridge about to read the
    stop flag, about to publish a terminal marker, or gone. *)
Inductive worker :=
  | Generating (c : call)
  | BridgePut (x : list Z) (c : call)
  | BridgeCheck (c : call)
  | Publishing (m : item)
  | Exited.

(** Modelled from the spec: the state of the consumer's iteration
    wrapper of the missing adapter (4.4): pulling, draining after an
    early exit, or ended cleanly, by an exception or by cancellation. *)
Inductive consumer :=
  | Pulling
  | Draining
  | Completed
  | Failed (e : exn)
  | Cancelled.

(** Modelled from the spec: all there is to one request of the missing
    adapter (3): the worker lane, the channel slot, the stop flag, the
    wrapper and the chunks it has yielded so far. *)
Record state (Chunk : Type) := {
  lane : worker;
  slot : list item;
  stop_flag : bool;
  wrapper : consumer;
  chunks : list Chunk
}.
Arguments lane {Chunk} s.
Arguments slot {Chunk} s.
Arguments stop_flag {Chunk} s.
Arguments wrapper {Chunk} s.
Arguments chunks {Chunk} s.

(** Modelled from the spec: the capacity of the channel of the missing
    adapter (4.3). *)
Definition capacity : nat := 1.

(** Modelled from the spec: the two lines of execution of the missing
    adapter (5); a schedule picks the worker, a pull of the consumer, or
    the consumer's early exit. *)
Inductive move := Work | Pull | Cancel.

(** Modelled from the spec: what an observer of the missing adapter can
    time-stamp (8): a generation step, the end of the blocking call, a
    completed put, a reading of the stop flag by the bridge, a completed
    take, the setting of the stop flag. *)
Inductive event :=
  | GenStep (x : list Z)
  | GenEnd
  | Put (m : item)
  | Checked (stop : bool)
  | Take (m : item)
  | SetStop.

Section machine.

Context {Chunk : Type}.

(** The tokenizer's decoding, applied by the wrapper to what it takes. *)
Variable decode : list Z -> Chunk.

(** Modelled from the spec: a request of the missing adapter enters
    [Running] with the lane started, the slot empty and the flag unset
    (3, 4.4). *)
Definition init (c : call) : state Chunk := {|
  lane := Generating c;
  slot := [];
  stop_flag := false;
  wrapper := Pulling;
  chunks := []
|}.

(** Modelled from the spec: the worker lane of the missing adapter moves
    on; nothing else changes. *)
Definition set_lane (s : state Chunk) (w : worker) : state Chunk :=
  {| lane := w; slot := slot s; stop_flag := stop_flag s;
     wrapper := wrapper s; chunks := chunks s |}.

(** Modelled from the spec: [put] on the channel of the missing adapter
    (4.3); [None] while the writer is blocked on a full slot. *)
Definition put (s : state Chunk) (m : item) (w : worker)
  : option (state Chunk * event) :=
  if length (slot s) <? capacity then
    Some ({| lane := w; slot := slot s ++ [m]; stop_flag := stop_flag s;
             wrapper := wrapper s; chunks := chunks s |}, Put m)
  else None.

(** Modelled from the spec: one action of the worker lane of the missing
    adapter (4.1, 4.2): a generation step that invokes the bridge, the
    bridge's push, the bridge's reading of the stop flag, the end of the
    call and the publication of its terminal marker. *)
Definition work (s : state Chunk) : option (state Chunk * event) :=
  match lane s with
  | Generating c =>
      match todo c with
      | x :: rest =>
          Some (set_lane s (BridgePut x {| todo := rest; ending := ending c |}),
                GenStep x)
      | [] => Some (set_lane s (Publishing (marker (ending c))), GenEnd)
      end
  | BridgePut x c => put s (StepOutput x) (BridgeCheck c)
  | BridgeCheck c =>
      if stop_flag s
      then Some (set_lane s (Publishing StopAcknowledged), Checked true)
      else Some (set_lane s (Generating c), Checked false)
  | Publishing m => put s m Exited
  | Exited => None
  end.

(** Modelled from the spec: the state of the missing adapter after a
    take that leaves [q] in the slot. *)
Definition taken (s : state Chunk) (q : list item) (w : consumer)
    (cs : list Chunk) : state Chunk :=
  {| lane := lane s; slot := q; stop_flag := stop_flag s;
     wrapper := w; chunks := cs |}.

(** Modelled from the spec: one pull of the wrapper of the missing
    adapter (4.4), with the untimed [take]; [None] while [take] is
    blocked on an empty slot or the sequence is over. *)
Definition pull (s : state Chunk) : option (state Chunk * event) :=
  match wrapper s, slot s with
  | Pulling, StepOutput x :: q =>
      Some (taken s q Pulling (chunks s ++ [decode x]), Take (StepOutput x))
  | Pulling, NormalCompletion :: q =>
      Some (taken s q Completed (chunks s), Take NormalCompletion)
  | Pulling, Exception e :: q =>
      Some (taken s q (Failed e) (chunks s), Take (Exception e))
  | Pulling, StopAcknowledged :: q =>
      Some (taken s q Cancelled (chunks s), Take StopAcknowledged)
  | Draining, StepOutput x :: q =>
      Some (taken s q Draining (chunks s), Take (StepOutput x))
  | Draining, m :: q =>
      Some (taken s q Cancelled (chunks s), Take m)
  | _, _ => None
  end.

(** Modelled from the spec: early termination by the caller of the
    missing adapter (4.4): the wrapper sets the stop flag and goes on to
    drain the channel. *)
Definition cancel (s : state Chunk) : option (state Chunk * event) :=
  match wrapper s with
  | Pulling =>
      Some ({| lane := lane s; slot := slot s; stop_flag := true;
               wrapper := Draining; chunks := chunks s |}, SetStop)
  | _ => None
  end.

(** Modelled from the spec: one move of the missing adapter (5). *)
Definition exec (mv : move) (s : state Chunk) : option (state Chunk * event) :=
  match mv with
  | Work => work s
  | Pull => pull s
  | Cancel => cancel s
  end.

(** Modelled from the spec: a run of the missing adapter under a
    schedule (5), move by move; the schedule is refused as a whole when
    one of its moves is not enabled. *)
Fixpoint run (sched : list move) (s : state Chunk)
  : option (state Chunk * list event) :=
  match sched with
  | [] => Some (s, [])
  | mv :: sched' =>
      match exec mv s with
      | Some (s', ev) =>
          match run sched' s' with
          | Some (s'', tr) => Some (s'', ev :: tr)
          | None => None
          end
      | None => None
      end
  end.

(** Nothing can move. *)
Definition quiescent (s : state Chunk) : Prop :=
  forall mv, exec mv s = None.

End machine.

Definition is_step_output (m : item) : bool :=
  match m with StepOutput _ => true | _ => false end.

Definition is_gen_step (ev : event) : bool :=
  match ev with GenStep _ => true | _ => false end.

(** The events after the first [SetStop]. *)
Fixpoint after_stop (tr : list event) : list event :=
  match tr with
  | [] => []
  | SetStop :: tr' => tr'
  | _ :: tr' => after_stop tr'
  end.

Definition count (p : event -> bool) (tr : list event) : nat :=
  length (filter (fun ev => p ev = true) tr).

End Adapter.

(** * Vocabulary of the statements *)

(** ** Prompts and the streaming loop *)

(** The text a response contributes to the prompt. *)
Definition response_text (response : option (list N)) : list N :=
  match response with
  | Some r => r
  | None => []
  end.

(** Each text starts with the one before it. *)
Fixpoint cumulative (texts : list (list N)) : bool :=
  match texts with
  | c :: (c' :: _) as rest => startswith c c' && cumulative rest
  | _ => true
  end.

(** Each number is at least the one before it. *)
Fixpoint nondecreasing (l : list nat) : Prop :=
  match l with
  | a :: (b :: _) as rest => a <= b /\ nondecreasing rest
  | _ => True
  end.

(** A [Stream] hook among stopping criteria. *)
Definition is_stream {C} (c : Server.criterion C) : bool :=
  match c with
  | Server.Stream _ => true
  | Server.OtherCriterion _ => false
  end.

(** The streaming adapter shows in a run as the construction of the
    iterator ([Iteratorize]) or as a [Stream] hook among the stopping
    criteria handed to [model.generate]. *)
Definition uses_adapter {C} (r : Server.run C) : bool :=
  existsb
    (fun e =>
       match e with
       | Server.EIteratorize _ => true
       | Server.EGenerate kwargs =>
           match kwargs !! "stopping_criteria" with
           | Some (Server.VCriteria l) => existsb is_stream l
           | _ => false
           end
       end)
    (Server.effects r).

(** The text [get_response] takes from an output before it strips it:
    what lies between the first marker and the next one. *)
Definition reply (output : list N) : list N :=
  match split (lit "### Response:") output with
  | _ :: p :: _ => p
  | _ => []
  end.

(** A step output the streaming loop turns into a chunk: it has a last
    token, that token is not EOS, and its decoded text holds the
    marker. *)
Definition streamable (decode : list Z -> list N) (eos : Z) (output : list Z)
  : bool :=
  match last output with
  | Some t => negb (t =? eos)%Z && contains (lit "### Response:") (decode output)
  | None => false
  end.

(** The steps ahead of the first one that is not [streamable], and the
    steps from that one on. *)
Fixpoint streamed (decode : list Z -> list N) (eos : Z) (outs : list (list Z))
  : list (list Z) * list (list Z) :=
  match outs with
  | [] => ([], [])
  | o :: rest =>
      if streamable decode eos o
      then let '(pre, post) := streamed decode eos rest in (o :: pre, post)
      else ([], outs)
  end.

(** The keyword arguments of an action of [evaluate]. *)
Definition effect_kwargs {C} (e : Server.effect C)
  : gmap string (Server.pyval C) :=
  match e with
  | Server.EIteratorize kwargs => kwargs
  | Server.EGenerate kwargs => kwargs
  end.

(** Keyword arguments that hold the sampling parameters of a request as
    they are. *)
Definition carries {C} (req : Server.request)
    (kwargs : gmap string (Server.pyval C)) : Prop :=
  kwargs !! "generation_config"
  = Some (Server.VConfig
            {| Server.cfg_temperature := Server.temperature req;
               Server.cfg_top_p := Server.top_p req;
               Server.cfg_top_k := Server.top_k req;
               Server.cfg_num_beams := Server.num_beams req;
               Server.cfg_do_sample := true |})
  /\ kwargs !! "max_new_tokens" = Some (Server.VNum (Server.max_new_tokens req)).

(** The range and step a slider is declared with. *)
Definition declares (s : Server.Slider) (lo hi : Q) (step : option Q) : Prop :=
  Server.minimum s = lo /\ Server.maximum s = hi /\ Server.step s = step.

(** ** Checkpoint directories *)


(** The directory name [f'checkpoint-{n}']. *)
Definition checkpoint_name (n : Z) : list N :=
  lit "checkpoint-" ++ ModelUtils.str_of_Z n.

(** An entry of the checkpoint directory that the scan takes for a
    checkpoint: a subdirectory whose name starts with 'checkpoint'. *)
Definition checkpoint_subdir (fs : ModelUtils.filesystem) (dir name : list N)
  : bool :=
  ModelUtils.isdir fs (ModelUtils.path_join dir name)
  && startswith (lit "checkpoint") name.

(** [name] is 'checkpoint-<s>' and [int] reads [s] as [n]. *)
Definition step_of_name (name : list N) (n : Z) : Prop :=
  exists suffix,
    name = lit "checkpoint-" ++ suffix /\ ModelUtils.int_of_str suffix = Ok n.


(** What the scan of [get_last_checkpoint] reads off a directory name. *)
Definition name_step (name : list N) : result Z :=
  ModelUtils.int_of_str (replace (lit "checkpoint-") [] name).

(** The names the scan takes for checkpoints have at most 4300
    characters (so that [int] is never given more digits than the
    interpreter converts). *)
Definition short_names (fs : ModelUtils.filesystem) (dir : list N)
    (names : list (list N)) : Prop :=
  forall name, name ∈ names -> checkpoint_subdir fs dir name = true ->
    length name <= 4300.


(** ** Runs of the streaming adapter *)

(** The items put into the channel, in order. *)
Definition puts (tr : list Adapter.event) : list Adapter.item :=
  omap (fun ev => match ev with Adapter.Put m => Some m | _ => None end) tr.

(** The items taken out of the channel, in order. *)
Definition takes (tr : list Adapter.event) : list Adapter.item :=
  omap (fun ev => match ev with Adapter.Take m => Some m | _ => None end) tr.

(** The sequence is over for the consumer. *)
Definition terminal (w : Adapter.consumer) : bool :=
  match w with
  | Adapter.Completed | Adapter.Failed _ | Adapter.Cancelled => true
  | Adapter.Pulling | Adapter.Draining => false
  end.

(** What the worker lane has still to put if it is never stopped. *)
Definition lane_items (w : Adapter.worker) : list Adapter.item :=
  match w with
  | Adapter.Generating c | Adapter.BridgeCheck c =>
      map Adapter.StepOutput (Adapter.todo c)
      ++ [Adapter.marker (Adapter.ending c)]
  | Adapter.BridgePut x c =>
      Adapter.StepOutput x
      :: map Adapter.StepOutput (Adapter.todo c)
      ++ [Adapter.marker (Adapter.ending c)]
  | Adapter.Publishing m => [m]
  | Adapter.Exited => []
  end.

(** What has still to reach the consumer. *)
Definition pending {Chunk} (s : Adapter.state Chunk) : list Adapter.item :=
  Adapter.slot s ++ lane_items (Adapter.lane s).

(** A measure that every move decreases: the weight of the lane, of the
    wrapper and of the slot. *)
Definition lane_size (w : Adapter.worker) : nat :=
  match w with
  | Adapter.Generating c => 4 * length (Adapter.todo c) + 3
  | Adapter.BridgePut _ c => 4 * length (Adapter.todo c) + 6
  | Adapter.BridgeCheck c => 4 * length (Adapter.todo c) + 4
  | Adapter.Publishing _ => 2
  | Adapter.Exited => 0
  end.

Definition consumer_size (w : Adapter.consumer) : nat :=
  match w with
  | Adapter.Pulling => 2
  | Adapter.Draining => 1
  | _ => 0
  end.

Definition size {Chunk} (s : Adapter.state Chunk) : nat :=
  length (Adapter.slot s) + lane_size (Adapter.lane s)
  + consumer_size (Adapter.wrapper s).

(** The worker lane and the wrapper agree on how far the request is: a
    terminal marker is in the slot exactly between the exit of the lane
    and the end of the sequence. *)
Definition coherent {Chunk} (s : Adapter.state Chunk) : Prop :=
  length (Adapter.slot s) <= Adapter.capacity
  /\ match Adapter.lane s with
     | Adapter.Exited =>
         (terminal (Adapter.wrapper s) = true /\ Adapter.slot s = [])
         \/ (terminal (Adapter.wrapper s) = false
             /\ exists m, Adapter.slot s = [m]
                          /\ Adapter.is_step_output m = false)
     | w =>
         terminal (Adapter.wrapper s) = false
         /\ Forall (fun m => Adapter.is_step_output m = true) (Adapter.slot s)
         /\ match w with
            | Adapter.Publishing m => Adapter.is_step_output m = false
            | _ => True
            end
     end.

(** Every item put is either taken or still in the slot, and whenever a
    put completes every earlier item has been taken. *)
Definition accounted {Chunk} (s : Adapter.state Chunk)
    (tr : list Adapter.event) : Prop :=
  puts tr = takes tr ++ Adapter.slot s
  /\ forall tr1 m tr2,
       tr = tr1 ++ Adapter.Put m :: tr2 -> takes tr1 = puts tr1.

(** A run that was never cancelled has delivered a prefix of the call's
    outputs, and the rest of them, with the call's terminal marker, is
    still on its way. *)
Definition on_course {Chunk} (decode : list Z -> Chunk) (c : Adapter.call)
    (s : Adapter.state Chunk) : Prop :=
  Adapter.stop_flag s = false
  /\ match Adapter.wrapper s with
     | Adapter.Pulling =>
         exists got,
           Adapter.chunks s = map decode got
           /\ map Adapter.StepOutput got ++ pending s
              = map Adapter.StepOutput (Adapter.todo c)
                ++ [Adapter.marker (Adapter.ending c)]
     | Adapter.Completed =>
         Adapter.marker (Adapter.ending c) = Adapter.NormalCompletion
         /\ Adapter.chunks s = map decode (Adapter.todo c)
     | Adapter.Failed e =>
         Adapter.ending c = Raise e
         /\ Adapter.chunks s = map decode (Adapter.todo c)
     | Adapter.Draining | Adapter.Cancelled => False
     end.

(** How the stop flag, once set, bounds what the worker still does. *)
Definition stopping {Chunk} (s : Adapter.state Chunk)
    (tr : list Adapter.event) : Prop :=
  if Adapter.stop_flag s then
    Adapter.SetStop ∈ tr
    /\ (Adapter.wrapper s = Adapter.Draining
        \/ Adapter.wrapper s = Adapter.Cancelled)
    /\ (Adapter.Checked false ∉ Adapter.after_stop tr)
    /\ Adapter.count Adapter.is_gen_step (Adapter.after_stop tr) <= 1
    /\ match Adapter.lane s with
       | Adapter.Generating _ =>
           Adapter.count Adapter.is_gen_step (Adapter.after_stop tr) = 0
       | _ => True
       end
  else Adapter.SetStop ∉ tr.

(** The call the adapter is given for one [model.generate] run. *)
Definition call_of (g : Server.generation) : Adapter.call :=
  {| Adapter.todo := Server.steps g;
     Adapter.ending := match Server.final g with
                       | Ok _ => Ok tt
                       | Raise e => Raise e
                       end |}.

(** * Examples *)

(** A character-level tokenizer, a scripted model and some requests. *)
Module Toy.

(** One token per code point. *)
Definition encode (s : list N) : list Z := map Z.of_N s.
Definition decode (toks : list Z) : list N := map Z.to_N toks.

Definition tokenizer (s : list N) : Server.encoding :=
  {| Server.input_ids := encode s;
     Server.attention_mask := map (fun _ => 1%Z) s |}.

Definition eos_token_id : Z := 2.

Definition prompt : list N := lit "Hi" ++ [nl; nl] ++ lit "### Response:".

(** Two steps; the second one emits the EOS token. *)
Definition steps_with_eos : list (list Z) :=
  [ encode (prompt ++ lit "A");
    encode (prompt ++ lit "A") ++ [eos_token_id] ].

(** Two steps; the model starts a new turn of its own. *)
Definition steps_with_marker : list (list Z) :=
  [ encode (prompt ++ lit "Hi ###");
    encode (prompt ++ lit "Hi ### Response:") ].

(** Three steps growing by one word each, with the text each adds to the
    prompt. *)
Definition steps_plain : list (list Z * list N) :=
  [ (encode (prompt ++ lit " Al"), lit " Al");
    (encode (prompt ++ lit " Alpacas "), lit " Alpacas ");
    (encode (prompt ++ lit " Alpacas are"), lit " Alpacas are") ].

(** A model that echoes its prompt and adds "ok" in two steps. *)
Definition model_generate {C} (kwargs : gmap string (Server.pyval C))
  : Server.generation :=
  match kwargs !! "input_ids" with
  | Some (Server.VIds ids) =>
      {| Server.steps := [ids ++ encode (lit "o"); ids ++ encode (lit "ok")];
         Server.final := Ok (ids ++ encode (lit "ok")) |}
  | _ => {| Server.steps := []; Server.final := Raise (ModelError 1) |}
  end.

(** A model whose generation fails. *)
Definition model_failing {C} (kwargs : gmap string (Server.pyval C))
  : Server.generation :=
  {| Server.steps := []; Server.final := Raise (ModelError 1) |}.

(** The interface's default settings. *)
Definition request (stream : bool) : Server.request :=
  {| Server.instruction := lit "Hi";
     Server.input := Some [];
     Server.temperature := 1;
     Server.top_p := 1;
     Server.top_k := 50;
     Server.num_beams := 4;
     Server.max_new_tokens := 128;
     Server.stream_output := stream |}.

(** The same with the top-k slider at its minimum. *)
Definition request_top_k_zero : Server.request :=
  {| Server.instruction := lit "Hi";
     Server.input := Some [];
     Server.temperature := 1;
     Server.top_p := 1;
     Server.top_k := 0;
     Server.num_beams := 4;
     Server.max_new_tokens := 128;
     Server.stream_output := false |}.

End Toy.

(** A file system with the single directory [dir], holding the given
    subdirectories and plain files. *)
Definition flat_dir (dir : list N) (subdirs files : list (list N))
  : ModelUtils.filesystem :=
  {| ModelUtils.isdir p :=
       bool_decide (p = dir)
       || bool_decide (p ∈ map (ModelUtils.path_join dir) subdirs);
     ModelUtils.exists_ p :=
       bool_decide (p = dir)
       || bool_decide (p ∈ map (ModelUtils.path_join dir) (subdirs ++ files));
     ModelUtils.listdir p :=
       if bool_decide (p = dir) then Ok (files ++ subdirs)
       else if bool_decide (p ∈ map (ModelUtils.path_join dir) subdirs)
            then Ok []
            else Raise (OSError 2) |}.


Definition dir_two_checkpoints : ModelUtils.filesystem :=
  flat_dir (lit "out") [lit "checkpoint-5"; lit "checkpoint-010"] [lit "log.txt"].

Definition dir_stray_subdir : ModelUtils.filesystem :=
  flat_dir (lit "out") [lit "checkpoints"; lit "checkpoint-5"] [].

Definition dir_zero_and_five : ModelUtils.filesystem :=
  flat_dir (lit "out") [lit "checkpoint-0"; lit "checkpoint-5"] [].

(** A directory that cannot be listed. *)
Definition dir_unreadable : ModelUtils.filesystem :=
  {| ModelUtils.isdir p := bool_decide (p = lit "out");
     ModelUtils.exists_ p := bool_decide (p = lit "out");
     ModelUtils.listdir p := Raise (OSError 13) |}.

(** A sequence of two plain linear layers. *)
Definition model_plain : ModelUtils.module :=
  ModelUtils.Module 0 ModelUtils.OtherClass
    [ (lit "0", ModelUtils.Module 1 ModelUtils.Linear []);
      (lit "1", ModelUtils.Module 2 ModelUtils.Linear []) ].

(** A quantised model with an output head. *)
Definition model_4bit : ModelUtils.module :=
  ModelUtils.Module 0 ModelUtils.OtherClass
    [ (lit "layers",
       ModelUtils.Module 1 ModelUtils.OtherClass
         [ (lit "q_proj", ModelUtils.Module 2 ModelUtils.Linear4bit []);
           (lit "v_proj", ModelUtils.Module 3 ModelUtils.LinearNF4 []) ]);
      (lit "lm_head", ModelUtils.Module 4 ModelUtils.Linear4bit []) ].

(** The same with the projection layer registered a second time, under
    the name 'tied'. *)
Definition model_tied : ModelUtils.module :=
  ModelUtils.Module 0 ModelUtils.OtherClass
    [ (lit "layers",
       ModelUtils.Module 1 ModelUtils.OtherClass
         [ (lit "q_proj", ModelUtils.Module 2 ModelUtils.Linear4bit []) ]);
      (lit "tied", ModelUtils.Module 2 ModelUtils.Linear4bit []) ].

(** A call of three steps that ends normally, and one of two steps that
    raises. *)
Definition call_three : Adapter.call :=
  {| Adapter.todo := [[1%Z]; [1%Z; 2%Z]; [1%Z; 2%Z; 3%Z]];
     Adapter.ending := Ok tt |}.

Definition call_failing : Adapter.call :=
  {| Adapter.todo := [[1%Z]; [1%Z; 2%Z]];
     Adapter.ending := Raise (ModelError 7) |}.

(** The worker runs ahead until the slot is full, then the consumer
    pulls. *)
Definition sched_backpressure : list Adapter.move :=
  [Adapter.Work; Adapter.Work; Adapter.Work; Adapter.Work;
   Adapter.Pull; Adapter.Work].

(** Worker and consumer alternate until the exception is taken. *)
Definition sched_until_failure : list Adapter.move :=
  [Adapter.Work; Adapter.Work; Adapter.Pull; Adapter.Work; Adapter.Work;
   Adapter.Work; Adapter.Pull; Adapter.Work; Adapter.Work; Adapter.Work;
   Adapter.Pull].

(** The consumer leaves after the first chunk. *)
Definition sched_cancel_after_first : list Adapter.move :=
  [Adapter.Work; Adapter.Work; Adapter.Pull; Adapter.Work;
   Adapter.Cancel; Adapter.Work; Adapter.Work].

(** * Parameter reports ([model_utils.py]) *)

Module Parameters.

(** What the two reports read of a parameter tensor: [numel()],
    [requires_grad] and [dtype]. *)
Record parameter (D : Type) := {
  numel : N;
  requires_grad : bool;
  dtype : D
}.
Arguments numel {D} p.
Arguments requires_grad {D} p.
Arguments dtype {D} p.

(** Both reports divide by a count of elements. *)
Inductive outcome (A : Type) :=
  | Printed (a : A)
  | ZeroDivisionError.
Arguments Printed {A} a.
Arguments ZeroDivisionError {A}.

(** The numbers formatted into the line of [print_trainable_parameters].
    The halved count and the percentage are kept as exact rationals
    (Python prints the nearest doubles). *)
Record summary := {
  trainable_params : Q;
  all_param : Z;
  trainable_percent : Q
}.

(** The numbers formatted into one line of [verify_dtypes]: the dtype,
    its element count and the total the count is divided by. *)
Record share (D : Type) := {
  share_dtype : D;
  share_count : Z;
  share_total : Z
}.
Arguments share_dtype {D} s.
Arguments share_count {D} s.
Arguments share_total {D} s.

Section reports.

Context {D : Type} `{EqDecision D}.

(** The loop of [print_trainable_parameters] over
    [model.named_parameters()]. *)
Fixpoint count_parameters (params : list (parameter D))
    (trainable_params all_param : Z) : Z * Z :=
  match params with
  | [] => (trainable_params, all_param)
  | param :: rest =>
      let all_param := (all_param + Z.of_N (numel param))%Z in
      let trainable_params :=
        if requires_grad param
        then (trainable_params + Z.of_N (numel param))%Z
        else trainable_params in
      count_parameters rest trainable_params all_param
  end.

Definition print_trainable_parameters (bits : Z) (params : list (parameter D))
  : outcome summary :=
  let '(trainable, all) := count_parameters params 0 0 in
  let trainable : Q :=
    if (bits =? 4)%Z then (inject_Z trainable / 2)%Q else inject_Z trainable in
  if (all =? 0)%Z then ZeroDivisionError
  else Printed {| trainable_params := trainable;
                  all_param := all;
                  trainable_percent := (100 * trainable / inject_Z all)%Q |}.

(** [if dtype not in dtypes: dtypes[dtype] = 0] followed by
    [dtypes[dtype] += n], on a dict kept in insertion order. *)
Fixpoint tally (dtypes : list (D * Z)) (dtype : D) (n : Z) : list (D * Z) :=
  match dtypes with
  | [] => [(dtype, (0 + n)%Z)]
  | (k, v) :: rest =>
      if decide (k = dtype) then (k, (v + n)%Z) :: rest
      else (k, v) :: tally rest dtype n
  end.

(** The loop of [verify_dtypes] over [model.named_parameters()]. *)
Fixpoint count_dtypes (params : list (parameter D)) (dtypes : list (D * Z))
  : list (D * Z) :=
  match params with
  | [] => dtypes
  | p :: rest => count_dtypes rest (tally dtypes (dtype p) (Z.of_N (numel p)))
  end.

(** [sum(values)] *)
Definition sum (values : list Z) : Z := foldl Z.add 0%Z values.

(** The loop over [dtypes.items()]; each line divides by [total]. *)
Fixpoint print_shares (items : list (D * Z)) (total : Z)
  : outcome (list (share D)) :=
  match items with
  | [] => Printed []
  | (k, v) :: rest =>
      if (total =? 0)%Z then ZeroDivisionError
      else
        match print_shares rest total with
        | Printed lines =>
            Printed ({| share_dtype := k; share_count := v;
                        share_total := total |} :: lines)
        | ZeroDivisionError => ZeroDivisionError
        end
  end.

Definition verify_dtypes (params : list (parameter D))
  : outcome (list (share D)) :=
  let dtypes := count_dtypes params [] in
  let total := sum dtypes.*2 in
  print_shares dtypes total.

End reports.

End Parameters.

(** * Special tokens ([model_utils.py]) *)

Module SpecialTokens.

(** The two embedding matrices of a model, as lists of rows. *)
Record model (Row : Type) := {
  input_embeddings : list Row;
  output_embeddings : list Row
}.
Arguments input_embeddings {Row} m.
Arguments output_embeddings {Row} m.

(** [rows[:-n]] for a positive [n]. *)
Definition all_but_last {Row} (n : nat) (rows : list Row) : list Row :=
  take (length rows - n) rows.

(** [rows[-n:] = v] for a positive [n]: the row [v] is written over every
    row from offset [len(rows) - n] on (from 0 when [n] exceeds the
    length). *)
Definition assign_last {Row} (n : nat) (v : Row) (rows : list Row) : list Row :=
  imap (fun i r => if bool_decide (length rows - n <= i) then v else r) rows.

Section tokens.

(** The tokenizer, the rows of an embedding matrix and the library calls
    the two functions make. *)
Variables Tokenizer Row : Type.
Variables pad_token eos_token bos_token unk_token : Tokenizer -> option str.
Variable add_special_tokens : list (string * str) -> Tokenizer -> Tokenizer * Z.
Variable len : Tokenizer -> nat.
Variable resize_token_embeddings : nat -> model Row -> model Row.
Variable mean : list Row -> Row.

(** The defaults of [chatllms.data.data_utils]. *)
Variables DEFAULT_PAD_TOKEN DEFAULT_EOS_TOKEN DEFAULT_BOS_TOKEN
  DEFAULT_UNK_TOKEN : str.

Definition smart_tokenizer_and_embedding_resize
    (special_tokens_dict : list (string * str)) (tokenizer : Tokenizer)
    (m : model Row) : Tokenizer * model Row :=
  let '(tokenizer, num_new_tokens) :=
    add_special_tokens special_tokens_dict tokenizer in
  let m := resize_token_embeddings (len tokenizer) m in
  if (0 <? num_new_tokens)%Z then
    let n := Z.to_nat num_new_tokens in
    let input_embeddings_avg := mean (all_but_last n (input_embeddings m)) in
    let output_embeddings_avg := mean (all_but_last n (output_embeddings m)) in
    (tokenizer,
     {| input_embeddings :=
          assign_last n input_embeddings_avg (input_embeddings m);
        output_embeddings :=
          assign_last n output_embeddings_avg (output_embeddings m) |})
  else (tokenizer, m).

(** The dict built by [add_special_tokens_if_missing], in insertion
    order. *)
Definition special_tokens_dict (tokenizer : Tokenizer) : list (string * str) :=
  (match pad_token tokenizer with
   | None => [("pad_token"%string, DEFAULT_PAD_TOKEN)] | Some _ => [] end)
  ++ (match eos_token tokenizer with
      | None => [("eos_token"%string, DEFAULT_EOS_TOKEN)] | Some _ => [] end)
  ++ (match bos_token tokenizer with
      | None => [("bos_token"%string, DEFAULT_BOS_TOKEN)] | Some _ => [] end)
  ++ (match unk_token tokenizer with
      | None => [("unk_token"%string, DEFAULT_UNK_TOKEN)] | Some _ => [] end).

Definition add_special_tokens_if_missing (tokenizer : Tokenizer)
    (m : model Row) : Tokenizer * model Row :=
  let special_tokens_dict := special_tokens_dict tokenizer in
  if 0 <? length special_tokens_dict
  then smart_tokenizer_and_embedding_resize special_tokens_dict tokenizer m
  else (tokenizer, m).

End tokens.

End SpecialTokens.

(** * Saving adapters ([model_utils.py], [SavePeftModelCallback]) *)

Module SavePeftModelCallback.

(** [transformers.trainer_utils.PREFIX_CHECKPOINT_DIR] *)
Definition PREFIX_CHECKPOINT_DIR : str := lit "checkpoint".

(** The fields read of the training arguments and of the trainer state. *)
Record TrainingArguments := { output_dir : str }.
Record TrainerState := {
  best_model_checkpoint : option str;
  global_step : Z
}.

(** The calls that change the file system. *)
Inductive call :=
  | SavePretrained (path : str)
  | Remove (path : str)
  | Touch (fname : str).

Section callback.

(** The answer of [os.path.exists] when [save_model] asks. *)
Variable path_exists : str -> bool.

Definition checkpoint_folder (args : TrainingArguments) (state : TrainerState)
  : str :=
  match best_model_checkpoint state with
  | Some best => ModelUtils.path_join best (lit "adapter_model")
  | None =>
      ModelUtils.path_join (output_dir args)
        (PREFIX_CHECKPOINT_DIR ++ lit "-"
         ++ ModelUtils.str_of_Z (global_step state))
  end.

Definition save_model (args : TrainingArguments) (state : TrainerState)
  : list call :=
  let checkpoint_folder := checkpoint_folder args state in
  let peft_model_path :=
    ModelUtils.path_join checkpoint_folder (lit "adapter_model") in
  let pytorch_model_path :=
    ModelUtils.path_join checkpoint_folder (lit "pytorch_model.bin") in
  SavePretrained peft_model_path ::
  (if path_exists pytorch_model_path then [Remove pytorch_model_path] else []).

Definition on_save {Control : Type} (args : TrainingArguments)
    (state : TrainerState) (control : Control) : list call * Control :=
  (save_model args state, control).

Definition on_train_end (args : TrainingArguments) (state : TrainerState)
  : list call :=
  Touch (ModelUtils.path_join (output_dir args) (lit "completed"))
  :: save_model args state.

End callback.

End SavePeftModelCallback.

(** * The MMLU evaluation callback ([utils/eval_callback.py]) *)

Module MMLUEvalCallback.

(** The fields of [args] that the callback reads at construction. *)
Record arguments := {
  mmlu_dataset : str;
  mmlu_split : str;
  max_mmlu_samples : option Z
}.

Section callback.

(** The trainer, the tokenizer, the dataset objects, the metric, and the
    library calls made on them. *)
Variables Trainer Tokenizer DatasetDict Dataset Metric : Type.
Variable load_dataset : str -> str -> result DatasetDict.
Variable remove_columns : str -> DatasetDict -> result DatasetDict.
Variable getitem : DatasetDict -> str -> result Dataset.
Variable select_range : Z -> Dataset -> result Dataset.
Variable input_ids : Tokenizer -> str -> list Z.
Variable evaluate_load : str -> result Metric.

(** The values held by the attributes of an instance. *)
Inductive value :=
  | VTrainer (t : Trainer)
  | VTokenizer (t : Tokenizer)
  | VIndices (ids : list Z)
  | VMetric (m : Metric)
  | VDataset (d : Dataset).

(** [l[0]] *)
Definition first (l : list Z) : result Z :=
  match l with
  | x :: _ => Ok x
  | [] => Raise IndexError
  end.

(** [MMLUEvalCallback.__init__]: the attributes of the new instance. *)
Definition init (trainer : Trainer) (tokenizer : Tokenizer) (data_dir : str)
    (args : arguments) : result (gmap string value) :=
  let self : gmap string value := <["trainer" := VTrainer trainer]> ∅ in
  let self := <["tokenizer" := VTokenizer tokenizer]> self in
  let* mmlu_dataset :=
    if str_eqb (mmlu_dataset args) (lit "mmlu-zs") then
      let* mmlu_dataset :=
        load_dataset
          (ModelUtils.path_join data_dir (lit "mmlu/zero_shot_mmlu_val.json"))
          (ModelUtils.path_join data_dir (lit "mmlu/zero_shot_mmlu_test.json")) in
      remove_columns (lit "subject") mmlu_dataset
    else if str_eqb (mmlu_dataset args) (lit "mmlu")
            || str_eqb (mmlu_dataset args) (lit "mmlu-fs") then
      load_dataset
        (ModelUtils.path_join data_dir (lit "mmlu/five_shot_mmlu_val.json"))
        (ModelUtils.path_join data_dir (lit "mmlu/five_shot_mmlu_test.json"))
    else Raise ValueError in
  let* mmlu_dataset := getitem mmlu_dataset (mmlu_split args) in
  let* mmlu_dataset :=
    match max_mmlu_samples args with
    | Some n => select_range n mmlu_dataset
    | None => Ok mmlu_dataset
    end in
  let* a := first (input_ids tokenizer (lit "A")) in
  let* b := first (input_ids tokenizer (lit "B")) in
  let* c := first (input_ids tokenizer (lit "C")) in
  let* d := first (input_ids tokenizer (lit "D")) in
  let self := <["abcd_idx" := VIndices [a; b; c; d]]> self in
  let* accuracy := evaluate_load (lit "accuracy") in
  Ok (<["accuracy" := VMetric accuracy]> self).

(** [self.name] *)
Definition getattr (self : gmap string value) (name : string) : result value :=
  match self !! name with
  | Some v => Ok v
  | None => Raise AttributeError
  end.

(** What [on_evaluate] does once it holds the trainer and the dataset:
    the evaluation loop and the logging. *)
Variable evaluation : gmap string value -> value -> value -> result unit.

(** [MMLUEvalCallback.on_evaluate]: its first statement reads
    [self.trainer] and [self.mmlu_dataset]. *)
Definition on_evaluate (self : gmap string value) : result unit :=
  let* trainer := getattr self "trainer" in
  let* mmlu_dataset := getattr self "mmlu_dataset" in
  evaluation self trainer mmlu_dataset.

End callback.

End MMLUEvalCallback.

(** * Vocabulary of the further statements *)

(** A request with another content of the 'Input' box. *)
Definition with_input (req : Server.request) (input : option (list N))
  : Server.request :=
  {| Server.instruction := Server.instruction req;
     Server.input := input;
     Server.temperature := Server.temperature req;
     Server.top_p := Server.top_p req;
     Server.top_k := Server.top_k req;
     Server.num_beams := Server.num_beams req;
     Server.max_new_tokens := Server.max_new_tokens req;
     Server.stream_output := Server.stream_output req |}.

(** [x] is what follows the last dot of [full], or all of [full] when it
    has no dot. *)
Definition last_component (full x : list N) : Prop :=
  (46%N ∉ x) /\ (full = x \/ exists pre, full = pre ++ lit "." ++ x).

(** The class [find_all_linear_names] looks for. *)
Definition linear_class (bits : Z) : ModelUtils.py_class :=
  if (bits =? 4)%Z then ModelUtils.Linear4bit else ModelUtils.Linear8bitLt.

(** Two file systems that answer [isdir] and [exists] alike. *)
Definition same_entries (fs fs' : ModelUtils.filesystem) : Prop :=
  (forall p, ModelUtils.isdir fs p = ModelUtils.isdir fs' p)
  /\ (forall p, ModelUtils.exists_ fs p = ModelUtils.exists_ fs' p).

(** Two answers of [os.listdir] that agree up to the order of the
    entries: the same entries in any order, or the same error. *)
Definition same_listing (r r' : result (list (list N))) : Prop :=
  match r, r' with
  | Ok names, Ok names' => names ≡ₚ names'
  | Raise e, Raise e' => e = e'
  | _, _ => False
  end.


(** The trainer state at a step, with no best checkpoint recorded. *)
Definition at_step (n : Z) : SavePeftModelCallback.TrainerState :=
  {| SavePeftModelCallback.best_model_checkpoint := None;
     SavePeftModelCallback.global_step := n |}.


(** The element counts of the parameters, and of those that satisfy
    [keep]. *)
Definition numels {D} (keep : Parameters.parameter D -> bool)
    (params : list (Parameters.parameter D)) : Z :=
  foldr Z.add 0%Z
    (map (fun p => Z.of_N (Parameters.numel p)) (filter (fun p => keep p = true) params)).

(** The count a dict of element counts holds for a key (0 for a key it
    lacks). *)
Fixpoint held {D} `{EqDecision D} (dtypes : list (D * Z)) (k : D) : Z :=
  match dtypes with
  | [] => 0%Z
  | (k', v) :: rest => if decide (k' = k) then v else held rest k
  end.

(** The distinct elements of a list in order of first appearance. *)
Fixpoint first_seen {D} `{EqDecision D} (l : list D) : list D :=
  match l with
  | [] => []
  | x :: l' => x :: filter (fun y => y <> x) (first_seen l')
  end.

(** What the library documents of [add_special_tokens]: the attributes
    named in the dict are set to the given tokens, the others are kept. *)
Definition sets_attribute {Tokenizer}
    (add_special_tokens : list (string * list N) -> Tokenizer -> Tokenizer * Z)
    (key : string) (attribute : Tokenizer -> option (list N)) : Prop :=
  forall d tok,
    attribute (add_special_tokens d tok).1
    = match list_find (fun kv => kv.1 = key) d with
      | Some (_, (_, v)) => Some v
      | None => attribute tok
      end.

(** ** Examples *)

(** Parameters of a small adapter-tuned model: a frozen 4-bit weight, a
    trainable adapter pair, a frozen half-precision norm. *)
Definition params_adapter : list (Parameters.parameter string) :=
  [ {| Parameters.numel := 48; Parameters.requires_grad := false;
       Parameters.dtype := "uint8"%string |};
    {| Parameters.numel := 8; Parameters.requires_grad := true;
       Parameters.dtype := "float32"%string |};
    {| Parameters.numel := 4; Parameters.requires_grad := false;
       Parameters.dtype := "float16"%string |};
    {| Parameters.numel := 4; Parameters.requires_grad := true;
       Parameters.dtype := "float32"%string |} ].

(** A tokenizer as far as the special tokens go: its four attributes and
    its vocabulary. *)
Module ToyTokenizer.

Record t := {
  pad : option (list N);
  eos : option (list N);
  bos : option (list N);
  unk : option (list N);
  vocab : list (list N)
}.

Definition lookup (key : string) (d : list (string * list N)) : option (list N) :=
  match list_find (fun kv => kv.1 = key) d with
  | Some (_, (_, v)) => Some v
  | None => None
  end.

Definition set (key : string) (d : list (string * list N))
    (old : option (list N)) : option (list N) :=
  match lookup key d with
  | Some v => Some v
  | None => old
  end.

(** The tokens of the dict that the vocabulary lacks are appended to it;
    their number is returned. *)
Definition add_special_tokens (d : list (string * list N)) (tok : t) : t * Z :=
  let new := filter (fun v => v ∉ vocab tok) (remove_dups d.*2) in
  ({| pad := set "pad_token" d (pad tok);
      eos := set "eos_token" d (eos tok);
      bos := set "bos_token" d (bos tok);
      unk := set "unk_token" d (unk tok);
      vocab := vocab tok ++ new |},
   Z.of_nat (length new)).

Definition len (tok : t) : nat := length (vocab tok).

(** Rows are rationals; a resized matrix keeps its first rows and is
    filled up with zeros. *)
Definition resize (n : nat) (rows : list Q) : list Q :=
  take n rows ++ replicate (n - length rows) 0%Q.

Definition resize_token_embeddings (n : nat) (m : SpecialTokens.model Q)
  : SpecialTokens.model Q :=
  {| SpecialTokens.input_embeddings := resize n (SpecialTokens.input_embeddings m);
     SpecialTokens.output_embeddings := resize n (SpecialTokens.output_embeddings m) |}.

Definition mean (rows : list Q) : Q :=
  (foldr Qplus 0 rows / inject_Z (Z.of_nat (length rows)))%Q.

(** A LLaMA-like tokenizer without a padding token, and a model with one
    row per token. *)
Definition llama : t :=
  {| pad := None; eos := Some (lit "</s>"); bos := Some (lit "<s>");
     unk := Some (lit "<unk>");
     vocab := [lit "<unk>"; lit "<s>"; lit "</s>"; lit "a"] |}.

Definition llama_model : SpecialTokens.model Q :=
  {| SpecialTokens.input_embeddings := [1; 2; 3; 6]%Q;
     SpecialTokens.output_embeddings := [4; 0; 0; 4]%Q |}.

End ToyTokenizer.

(** * Proofs *)

(** * The text model on examples *)

Example split_dots :
  split (lit ".") (lit "model.layers.0") = [lit "model"; lit "layers"; lit "0"].
Proof. by vm_compute. Qed.

Example split_overlapping :
  split (lit "aa") (lit "aaa") = [[]; lit "a"].
Proof. by vm_compute. Qed.

Example split_empty_text : split (lit ".") [] = [[]].
Proof. by vm_compute. Qed.

Example split_trailing : split (lit "::") (lit "a::") = [lit "a"; []].
Proof. by vm_compute. Qed.

Example replace_all :
  replace (lit "checkpoint-") [] (lit "checkpoint-checkpoint-12") = lit "12".
Proof. by vm_compute. Qed.

Example strip_both_ends :
  strip (nl :: lit "  a b " ++ [9%N; 160%N]) = lit "a b".
Proof. by vm_compute. Qed.

Example strip_blank : strip (lit "   ") = [].
Proof. by vm_compute. Qed.

Example int_plain : ModelUtils.int_of_str (lit "500") = Ok 500%Z.
Proof. by vm_compute. Qed.

Example int_padded : ModelUtils.int_of_str (lit " -1_200 ") = Ok (-1200)%Z.
Proof. by vm_compute. Qed.

Example int_rejects_word : ModelUtils.int_of_str (lit "checkpoints") = Raise ValueError.
Proof. by vm_compute. Qed.

Example int_rejects_empty : ModelUtils.int_of_str [] = Raise ValueError.
Proof. by vm_compute. Qed.

Example int_rejects_underscores :
  ModelUtils.int_of_str (lit "1__0") = Raise ValueError
  /\ ModelUtils.int_of_str (lit "10_") = Raise ValueError
  /\ ModelUtils.int_of_str (lit "_10") = Raise ValueError.
Proof. by vm_compute. Qed.

Example int_whitespace :
  ModelUtils.int_of_str (lit "5" ++ [31%N]) = Raise ValueError
  /\ ModelUtils.int_of_str (12%N :: lit "5" ++ [160%N; 12288%N]) = Ok 5%Z
  /\ ModelUtils.int_of_str (lit "- 5") = Raise ValueError.
Proof. by vm_compute. Qed.

Example int_other_digits :
  ModelUtils.int_of_str [1635%N] = Ok 3%Z
  /\ ModelUtils.int_of_str [65301%N; 1632%N] = Ok 50%Z
  /\ ModelUtils.int_of_str [178%N] = Raise ValueError.
Proof. by vm_compute. Qed.

Example str_of_Z_examples :
  ModelUtils.str_of_Z 0 = lit "0"
  /\ ModelUtils.str_of_Z 1500 = lit "1500"
  /\ ModelUtils.str_of_Z (-7) = lit "-7".
Proof. by vm_compute. Qed.

Example path_join_examples :
  ModelUtils.path_join (lit "out") (lit "completed") = lit "out/completed"
  /\ ModelUtils.path_join (lit "out/") (lit "completed") = lit "out/completed"
  /\ ModelUtils.path_join [] (lit "completed") = lit "completed"
  /\ ModelUtils.path_join (lit "out") (lit "/abs") = lit "/abs".
Proof. by vm_compute. Qed.

(** * Facts about text *)

Section text_facts.

Implicit Types (p s t sep : list N).

Lemma startswith_app p t : startswith p (p ++ t) = true.
Proof.
  induction p as [|a p IH]; simpl; [done|].
  by rewrite N.eqb_refl.
Qed.

Lemma startswith_inv p s : startswith p s = true -> exists t, s = p ++ t.
Proof.
  revert s. induction p as [|a p IH]; intros s H.
  - by exists s.
  - destruct s as [|b s]; simpl in H; [done|].
    apply andb_true_iff in H as [Hab Hps].
    apply N.eqb_eq in Hab as ->.
    destruct (IH _ Hps) as [t ->]. by exists t.
Qed.

Lemma startswith_refl p : startswith p p = true.
Proof. induction p as [|a p IH]; simpl; [done|]. by rewrite N.eqb_refl. Qed.

Lemma startswith_nil_r p : startswith p [] = true -> p = [].
Proof. by destruct p. Qed.

(** A match against [u ++ v] lies inside [u] or runs over its end. *)
Lemma startswith_app_cases p u v :
  startswith p (u ++ v) = true ->
  startswith p u = true \/ exists p', p = u ++ p' /\ startswith p' v = true.
Proof.
  revert p. induction u as [|x u IH]; intros p H.
  - right. by exists p.
  - destruct p as [|y p]; [by left|].
    simpl in H. apply andb_true_iff in H as [Hxy Hp].
    apply N.eqb_eq in Hxy as ->.
    destruct (IH _ Hp) as [Hl|(p' & -> & Hp')].
    + left. simpl. by rewrite N.eqb_refl.
    + right. by exists p'.
Qed.

Lemma contains_false_drop sep s i :
  contains sep s = false -> startswith sep (drop i s) = false.
Proof.
  revert i. induction s as [|c s IH]; intros i H.
  - rewrite drop_nil. simpl in H. by apply orb_false_iff in H as [? _].
  - simpl in H. apply orb_false_iff in H as [H0 Hs].
    destruct i as [|i]; [done|]. simpl. by apply IH.
Qed.

Lemma contains_false_intro sep s :
  (forall i, startswith sep (drop i s) = false) -> contains sep s = false.
Proof.
  induction s as [|c s IH]; intros H.
  - pose proof (H 0) as H0. simpl in *. by rewrite H0.
  - pose proof (H 0) as H0. simpl in *. rewrite H0. simpl.
    apply IH. intros i. apply (H (S i)).
Qed.

(** A separator that lacks the character [c] cannot match across it. *)
Lemma no_match_across sep a c b i :
  c ∉ sep -> contains sep a = false -> i <= length a ->
  startswith sep (drop i (a ++ c :: b)) = false.
Proof.
  intros Hc Ha Hi.
  destruct (startswith sep (drop i (a ++ c :: b))) eqn:E; [|done].
  rewrite drop_app_le in E by done.
  apply startswith_app_cases in E as [E|(p' & -> & E)].
  - by rewrite contains_false_drop in E.
  - destruct p' as [|d p'].
    + rewrite app_nil_r in Ha, Hc.
      pose proof (contains_false_drop (drop i a) a i Ha) as E'.
      by rewrite startswith_refl in E'.
    + simpl in E. apply andb_true_iff in E as [E _].
      apply N.eqb_eq in E as ->.
      exfalso. apply Hc. apply elem_of_app. right. left.
Qed.

Lemma contains_across sep a c b :
  c ∉ sep -> contains sep a = false -> contains sep b = false ->
  contains sep (a ++ c :: b) = false.
Proof.
  intros Hc Ha Hb. apply contains_false_intro. intros i.
  destruct (decide (i <= length a)) as [Hi|Hi].
  - by apply no_match_across.
  - rewrite drop_app_ge by lia.
    replace (i - length a) with (S (i - length a - 1)) by lia.
    simpl. by apply contains_false_drop.
Qed.

(** ** [split] *)

Lemma split_go_scan sep pre rest cur :
  (forall i, i < length pre -> startswith sep (drop i (pre ++ rest)) = false) ->
  split_go sep (pre ++ rest) 0 cur = split_go sep rest 0 (rev pre ++ cur).
Proof.
  revert cur. induction pre as [|c pre IH]; intros cur H; [done|].
  assert (H0 := H 0 ltac:(simpl; lia)).
  cbn [app drop] in H0. cbn [app split_go]. rewrite H0.
  rewrite IH.
  - simpl. by rewrite <- app_assoc.
  - intros i Hi. apply (H (S i)). simpl. lia.
Qed.

Lemma split_go_skip sep t rest cur :
  split_go sep (t ++ rest) (length t) cur = split_go sep rest 0 cur.
Proof. induction t as [|c t IH]; [done|]. simpl. apply IH. Qed.

Lemma split_go_hit sep rest cur :
  sep <> [] ->
  split_go sep (sep ++ rest) 0 cur = rev cur :: split_go sep rest 0 [].
Proof.
  intros Hne. destruct sep as [|a sep']; [done|].
  pose proof (startswith_app (a :: sep') rest) as Hs.
  rewrite <- app_comm_cons in *. cbn [split_go]. rewrite Hs.
  f_equal. replace (length (a :: sep') - 1) with (length sep') by (simpl; lia).
  apply split_go_skip.
Qed.

Lemma split_go_none sep s cur :
  contains sep s = false -> split_go sep s 0 cur = [rev cur ++ s].
Proof.
  intros H. rewrite <- (app_nil_r s) at 1.
  rewrite split_go_scan.
  - simpl. by rewrite rev_app_distr, rev_involutive.
  - intros i _. rewrite app_nil_r. by apply contains_false_drop.
Qed.

(** The shape of a text whose first separator starts at [length pre]. *)
Lemma split_first sep pre rest :
  sep <> [] ->
  (forall i, i < length pre ->
     startswith sep (drop i (pre ++ sep ++ rest)) = false) ->
  split sep (pre ++ sep ++ rest) = pre :: split sep rest.
Proof.
  intros Hne H. unfold split.
  rewrite split_go_scan by done.
  rewrite split_go_hit by done.
  by rewrite app_nil_r, rev_involutive.
Qed.

Lemma split_none sep s : contains sep s = false -> split sep s = [s].
Proof. intros H. unfold split. by rewrite split_go_none. Qed.

End text_facts.

(** * Facts about the prompter *)

Lemma nl_not_in_marker : nl ∉ lit "### Response:".
Proof. apply (bool_decide_unpack _). by vm_compute. Qed.

Lemma marker_nonempty : lit "### Response:" <> [].
Proof. done. Qed.

(** The marker does not overlap itself: it cannot start again inside one
    of its own occurrences. *)
Lemma marker_border_free j t :
  0 < j < length (lit "### Response:") ->
  startswith (lit "### Response:") (drop j (lit "### Response:") ++ t) = false.
Proof.
  intros [Hj Hlt]. change (length (lit "### Response:")) with 13 in Hlt.
  do 13 (destruct j as [|j]; [first [lia | by vm_compute] |]). lia.
Qed.

Ltac norm_app := cbn; repeat (rewrite <- app_assoc; cbn); rewrite ?app_nil_r.

Ltac across :=
  repeat (apply contains_across; [apply nl_not_in_marker | try by vm_compute | ]);
  try by vm_compute.

(** Whatever the template, the prompt ends in a newline and the marker,
    and nothing before that newline contains the marker. *)
Lemma format_shape tmpl instruction input :
  contains (lit "### Response:") instruction = false ->
  (forall i, input = Some i -> contains (lit "### Response:") i = false) ->
  exists body,
    Prompter.generate_prompt (Prompter.init tmpl) instruction input None
    = Ok (body ++ nl :: lit "### Response:")
    /\ contains (lit "### Response:") body = false.
Proof.
  intros Hi Hin. unfold Prompter.generate_prompt, Prompter.init.
  cbn [Prompter.dict].
  assert (forall d, d = Prompter.PROMPT_DICT \/ d = Prompter.ALPACA_PROMPT_DICT ->
    exists body,
      (let* prompt_text :=
         match input with
         | Some i => Prompter.format (Prompter.prompt_input d) instruction (Some i)
         | None => Prompter.format (Prompter.prompt_no_input d) instruction None
         end in Ok prompt_text) = Ok (body ++ nl :: lit "### Response:")
      /\ contains (lit "### Response:") body = false) as Hd.
  { intros d [-> | ->]; destruct input as [i|].
    - exists (instruction ++ nl :: []). split.
      + by norm_app.
      + across.
    - exists (instruction ++ nl :: []). split.
      + by norm_app.
      + across.
    - exists (lit "Below is an instruction that describes a task, paired with an input that provides further context. Write a response that appropriately completes the request."
              ++ nl :: [] ++ nl :: lit "### Instruction:" ++ nl :: instruction
              ++ nl :: [] ++ nl :: lit "### Input:" ++ nl :: i ++ nl :: []).
      split.
      + by norm_app.
      + specialize (Hin i eq_refl). across.
    - exists (lit "Below is an instruction that describes a task. Write a response that appropriately completes the request."
              ++ nl :: [] ++ nl :: lit "### Instruction:" ++ nl :: instruction
              ++ nl :: []).
      split.
      + by norm_app.
      + across.
  }
  destruct tmpl as [name|]; [destruct (str_eqb name (lit "alpaca"))|].
  - apply (Hd Prompter.ALPACA_PROMPT_DICT). by right.
  - apply (Hd Prompter.PROMPT_DICT). by left.
  - apply (Hd Prompter.PROMPT_DICT). by left.
Qed.

Lemma generate_prompt_response self instruction input response prompt :
  Prompter.generate_prompt self instruction input None = Ok prompt ->
  Prompter.generate_prompt self instruction input response
  = Ok (prompt ++ response_text response).
Proof.
  unfold Prompter.generate_prompt.
  destruct (match input with Some _ => _ | None => _ end) as [p|e]; cbn [bind];
    [|done].
  intros [= ->]. destruct response as [[|c r]|]; cbn; by rewrite ?app_nil_r.
Qed.

Lemma get_response_after_marker tmpl body rest :
  contains (lit "### Response:") body = false ->
  contains (lit "### Response:") rest = false ->
  Prompter.get_response (Prompter.init tmpl)
    ((body ++ nl :: lit "### Response:") ++ rest)
  = Ok (strip rest).
Proof.
  intros Hb Hr. unfold Prompter.get_response. cbn [Prompter.init Prompter.reponse_split].
  replace ((body ++ nl :: lit "### Response:") ++ rest)
    with ((body ++ [nl]) ++ lit "### Response:" ++ rest)
    by (by rewrite <- !app_assoc).
  rewrite split_first.
  - by rewrite split_none.
  - apply marker_nonempty.
  - intros i Hi. rewrite length_app in Hi. simpl in Hi.
    rewrite <- app_assoc. cbn [app].
    apply no_match_across; [apply nl_not_in_marker | done | lia].
Qed.

Lemma marker_unique body rest i :
  contains (lit "### Response:") body = false ->
  contains (lit "### Response:") rest = false ->
  occurs_at (lit "### Response:")
    ((body ++ nl :: lit "### Response:") ++ rest) i
  <-> i = S (length body).
Proof.
  intros Hb Hr. unfold occurs_at.
  replace ((body ++ nl :: lit "### Response:") ++ rest)
    with (body ++ nl :: (lit "### Response:" ++ rest))
    by (by rewrite <- !app_assoc).
  split.
  - intros H.
    destruct (decide (i <= length body)) as [Hi|Hi].
    { by rewrite no_match_across in H by (try apply nl_not_in_marker; done). }
    destruct (decide (i = S (length body))) as [|Hne]; [done|exfalso].
    rewrite drop_app_ge in H by lia.
    replace (i - length body) with (S (i - length body - 1)) in H by lia.
    cbn [drop] in H.
    set (j := i - length body - 1) in *.
    destruct (decide (j < length (lit "### Response:"))) as [Hj|Hj].
    + rewrite drop_app_le in H by lia.
      rewrite marker_border_free in H; [done|]. subst j. lia.
    + rewrite drop_app_ge in H by lia.
      by rewrite contains_false_drop in H.
  - intros ->. rewrite drop_app_ge by lia.
    replace (S (length body) - length body) with 1 by lia.
    cbn [drop]. apply startswith_app.
Qed.

(** C8: on prompts built by [generate_prompt] from an instruction, an
    input and a response that do not contain the marker '### Response:',
    [get_response] returns the stripped response; the prompt holds the
    marker at exactly one place, so [get_response] does not fail on it. *)
Theorem get_response_generate_prompt
    (tmpl : option (list N)) (instruction : list N)
    (input : option (list N)) (response : list N) :
  response <> [] ->
  contains (lit "### Response:") instruction = false ->
  (forall i, input = Some i -> contains (lit "### Response:") i = false) ->
  contains (lit "### Response:") response = false ->
  exists text,
    Prompter.generate_prompt (Prompter.init tmpl) instruction input
      (Some response) = Ok text
    /\ Prompter.get_response (Prompter.init tmpl) text = Ok (strip response)
    /\ exists k, forall i, occurs_at (lit "### Response:") text i <-> i = k.
Proof.
  intros _ Hi Hin Hr.
  destruct (format_shape tmpl instruction input Hi Hin) as (body & Hp & Hb).
  exists ((body ++ nl :: lit "### Response:") ++ response). split; [|split].
  - by rewrite (generate_prompt_response _ _ _ (Some response) _ Hp).
  - by apply get_response_after_marker.
  - exists (S (length body)). intros i. by apply marker_unique.
Qed.

Lemma get_response_generate_prompt_witness :
  exists text,
    Prompter.generate_prompt (Prompter.init (Some (lit "alpaca"))) (lit "Add.")
      (Some (lit "1 2")) (Some (lit " 3 ")) = Ok text
    /\ Prompter.get_response (Prompter.init (Some (lit "alpaca"))) text
       = Ok (strip (lit " 3 "))
    /\ exists k, forall i, occurs_at (lit "### Response:") text i <-> i = k.
Proof.
  apply (get_response_generate_prompt (Some (lit "alpaca")) (lit "Add.")
           (Some (lit "1 2")) (lit " 3 ")).
  - done.
  - by vm_compute.
  - intros i [= <-]. by vm_compute.
  - by vm_compute.
Defined.

(** The prompt [evaluate] builds (no response appended) also holds the
    marker exactly once, and the response read back from it is empty. *)
Lemma get_response_bare_prompt tmpl instruction input :
  contains (lit "### Response:") instruction = false ->
  (forall i, input = Some i -> contains (lit "### Response:") i = false) ->
  exists text,
    Prompter.generate_prompt (Prompter.init tmpl) instruction input None = Ok text
    /\ Prompter.get_response (Prompter.init tmpl) text = Ok []
    /\ forall i, occurs_at (lit "### Response:") text i
                 <-> i + length (lit "### Response:") = length text.
Proof.
  intros Hi Hin.
  destruct (format_shape tmpl instruction input Hi Hin) as (body & Hp & Hb).
  exists (body ++ nl :: lit "### Response:"). split; [done|split].
  - rewrite <- (app_nil_r (body ++ _)).
    by rewrite get_response_after_marker.
  - intros i. rewrite <- (app_nil_r (body ++ _)) at 1.
    rewrite marker_unique by done.
    rewrite length_app. cbn [length]. lia.
Qed.

Example get_response_ex :
  Prompter.get_response (Prompter.init None)
    (lit "Hi" ++ [nl; nl] ++ lit "### Response: Hello! " ++ [nl])
  = Ok (lit "Hello!").
Proof. by vm_compute. Qed.

Example get_response_no_marker :
  Prompter.get_response (Prompter.init None) (lit "Hello") = Raise IndexError.
Proof. by vm_compute. Qed.

(** ** [strip] grows with the text *)

Lemma lstrip_length s : length (lstrip s) <= length s.
Proof.
  induction s as [|c s IH]; simpl; [done|].
  destruct (is_space c); simpl; lia.
Qed.

Lemma lstrip_app_blank a b : lstrip a = [] -> lstrip (a ++ b) = lstrip b.
Proof.
  induction a as [|c a IH]; simpl; [done|].
  destruct (is_space c); [done|discriminate].
Qed.

Lemma lstrip_app_solid a b : lstrip a <> [] -> lstrip (a ++ b) = lstrip a ++ b.
Proof.
  induction a as [|c a IH]; simpl; [done|].
  destruct (is_space c); [done|]. by intros _.
Qed.

Lemma rstrip_length_app x t : length (rstrip x) <= length (rstrip (x ++ t)).
Proof.
  unfold rstrip. rewrite !length_rev, rev_app_distr.
  destruct (lstrip (rev t)) as [|h u] eqn:E.
  - by rewrite lstrip_app_blank.
  - rewrite lstrip_app_solid by (by rewrite E).
    rewrite length_app. pose proof (lstrip_length (rev x)).
    rewrite length_rev in *. lia.
Qed.

Lemma strip_length_app s t : length (strip s) <= length (strip (s ++ t)).
Proof.
  unfold strip. destruct (lstrip s) as [|h u] eqn:E.
  - unfold rstrip at 1. simpl. lia.
  - rewrite lstrip_app_solid by (by rewrite E). rewrite E.
    apply rstrip_length_app.
Qed.

Lemma strip_length_startswith s s' :
  startswith s s' = true -> length (strip s) <= length (strip s').
Proof. intros [t ->]%startswith_inv. apply strip_length_app. Qed.

(** ** The streaming loop of [evaluate] *)

(** The prompt of [evaluate]: the instruction, two newlines, the marker. *)
Lemma evaluate_prompt instruction input :
  Prompter.generate_prompt Server.prompter instruction input None
  = Ok ((instruction ++ [nl]) ++ nl :: lit "### Response:").
Proof.
  unfold Prompter.generate_prompt, Server.prompter.
  destruct input; cbn; by rewrite <- app_assoc.
Qed.

Lemma cumulative_strip_lengths texts :
  cumulative texts = true -> nondecreasing (map length (map strip texts)).
Proof.
  induction texts as [|c texts IH]; intros H; [done|].
  destruct texts as [|c' texts]; [done|].
  cbn [cumulative] in H. apply andb_true_iff in H as [Hc H].
  split; [by apply strip_length_startswith | by apply IH].
Qed.

(** ** [get_response] succeeds exactly on texts that hold the marker *)

Lemma split_go_nonempty sep s skip cur : split_go sep s skip cur <> [].
Proof.
  revert skip cur. induction s as [|c s IH]; intros skip cur; [done|].
  simpl. destruct skip; [|apply IH].
  destruct (startswith sep (c :: s)); [done|apply IH].
Qed.

Lemma split_go_two sep s cur :
  sep <> [] -> contains sep s = true ->
  exists a b rest, split_go sep s 0 cur = a :: b :: rest.
Proof.
  intros Hne. revert cur. induction s as [|c s IH]; intros cur H.
  - destruct sep; [done|]. discriminate.
  - cbn [split_go]. cbn [contains] in H.
    destruct (startswith sep (c :: s)) eqn:E.
    + pose proof (split_go_nonempty sep s (length sep - 1) []) as Hn.
      destruct (split_go sep s (length sep - 1) []) as [|b rest]; [done|].
      by exists (rev cur), b, rest.
    + apply IH. exact H.
Qed.

Lemma get_response_ok tmpl output :
  contains (lit "### Response:") output = true ->
  exists response, Prompter.get_response (Prompter.init tmpl) output = Ok response.
Proof.
  intros H. unfold Prompter.get_response.
  cbn [Prompter.init Prompter.reponse_split].
  destruct (split_go_two _ _ [] marker_nonempty H) as (a & b & rest & E).
  unfold split. rewrite E. by eexists.
Qed.

Lemma get_response_error tmpl output :
  contains (lit "### Response:") output = false ->
  Prompter.get_response (Prompter.init tmpl) output = Raise IndexError.
Proof.
  intros H. unfold Prompter.get_response.
  cbn [Prompter.init Prompter.reponse_split]. by rewrite split_none.
Qed.

(** * The streaming loop of [evaluate] *)

(** C1 as stated fails: a step whose last token is EOS ends the loop
    without a chunk, so two steps give one chunk. *)
Lemma consume_eos_counterexample :
  Server.consume Toy.decode Toy.eos_token_id Toy.steps_with_eos (Ok tt)
  = ([lit "A"], Ok tt)
  /\ length
       (Server.consume Toy.decode Toy.eos_token_id Toy.steps_with_eos (Ok tt)).1
     <> length Toy.steps_with_eos.
Proof. split; [by vm_compute|]. by vm_compute. Qed.

(** A marker in the generated text cuts the chunk short: the second chunk
    is shorter than the first. *)
Example consume_marker_shrinks :
  Server.consume Toy.decode Toy.eos_token_id Toy.steps_with_marker (Ok tt)
  = ([lit "Hi ###"; lit "Hi"], Ok tt).
Proof. by vm_compute. Qed.

(** On a text that holds the marker, the response is the stripped
    reply. *)
Lemma get_response_reply tmpl output :
  contains (lit "### Response:") output = true ->
  Prompter.get_response (Prompter.init tmpl) output = Ok (strip (reply output)).
Proof.
  intros H. unfold Prompter.get_response, reply.
  cbn [Prompter.init Prompter.reponse_split].
  destruct (split_go_two _ _ [] marker_nonempty H) as (a & b & rest & E).
  unfold split. by rewrite E.
Qed.

Section served_steps.

Variable decode : list Z -> list N.
Variable eos : Z.

Lemma streamed_app outs :
  outs = (streamed decode eos outs).1 ++ (streamed decode eos outs).2.
Proof.
  induction outs as [|o outs IH]; [done|]. cbn [streamed].
  destruct (streamable decode eos o); [|done].
  destruct (streamed decode eos outs) as [pre post]. cbn in *. by f_equal.
Qed.

Lemma streamed_rest outs :
  match (streamed decode eos outs).2 with
  | [] => True
  | output :: _ => streamable decode eos output = false
  end.
Proof.
  induction outs as [|o outs IH]; [done|]. cbn [streamed].
  destruct (streamable decode eos o) eqn:E; [|done].
  by destruct (streamed decode eos outs) as [pre post].
Qed.

Lemma streamed_all outs :
  Forall (fun output => streamable decode eos output = true) outs <->
  (streamed decode eos outs).2 = [].
Proof.
  induction outs as [|o outs IH]; [done|]. cbn [streamed].
  rewrite Forall_cons. destruct (streamable decode eos o) eqn:E.
  - destruct (streamed decode eos outs) as [pre post]. cbn in *.
    rewrite IH. naive_solver.
  - cbn. naive_solver.
Qed.

Lemma consume_chunks outs ending :
  (Server.consume decode eos outs ending).1
  = map (fun output => strip (reply (decode output)))
      (streamed decode eos outs).1.
Proof.
  induction outs as [|o outs IH]; [done|].
  cbn [Server.consume streamed]. unfold streamable.
  destruct (last o) as [t|]; [|done].
  destruct (t =? eos)%Z; [done|]. cbn [negb andb].
  destruct (contains (lit "### Response:") (decode o)) eqn:Ec.
  - unfold Server.prompter. rewrite (get_response_reply None _ Ec).
    destruct (streamed decode eos outs) as [pre post].
    destruct (Server.consume decode eos outs ending) as [chunks r].
    cbn in *. by rewrite IH.
  - unfold Server.prompter. by rewrite (get_response_error None _ Ec).
Qed.

Lemma streamed_streamable outs :
  Forall (fun output => streamable decode eos output = true)
    (streamed decode eos outs).1.
Proof.
  induction outs as [|o outs IH]; [constructor|]. cbn [streamed].
  destruct (streamable decode eos o) eqn:E; [|constructor].
  destruct (streamed decode eos outs) as [pre post]. by constructor.
Qed.

End served_steps.

(** C1 (amended): the streaming loop of [evaluate] yields one chunk per
    step, in production order, for the steps ahead of the first step that
    is empty, ends in the EOS token or decodes to a text without the
    marker, and nothing for that step and the later ones; each chunk is
    the response read off the decoded step.  It yields as many chunks as
    there are steps exactly when no step is of that kind.  The chunks'
    lengths never decrease when, over the steps served, the decoded text
    between the first marker and the next starts with that of the step
    before. *)
Theorem consume_yields (decode : list Z -> list N) (eos : Z)
    (outs : list (list Z)) (ending : result unit) :
  let chunks := (Server.consume decode eos outs ending).1 in
  let served := (streamed decode eos outs).1 in
  let unserved := (streamed decode eos outs).2 in
  outs = served ++ unserved
  /\ match unserved with
     | [] => True
     | output :: _ => streamable decode eos output = false
     end
  /\ chunks = map (fun output => strip (reply (decode output))) served
  /\ Forall2
       (fun output chunk =>
          Prompter.get_response Server.prompter (decode output) = Ok chunk)
       served chunks
  /\ (length chunks = length outs <->
      Forall (fun output => streamable decode eos output = true) outs)
  /\ (cumulative (map (fun output => reply (decode output)) served) = true ->
      nondecreasing (map length chunks)).
Proof.
  cbn zeta. pose proof (streamed_app decode eos outs) as Happ.
  pose proof (consume_chunks decode eos outs ending) as Hc.
  split; [done|]. split; [apply streamed_rest|]. split; [done|]. split; [|split].
  - rewrite Hc. apply Forall2_fmap_r, Forall_Forall2_diag.
    eapply Forall_impl; [apply streamed_streamable|].
    intros o Ho. unfold streamable in Ho.
    destruct (last o) as [t|]; [|done].
    apply andb_true_iff in Ho as [_ Ho].
    unfold Server.prompter. by apply get_response_reply.
  - rewrite streamed_all, Hc.
    change (map ?f ?l) with (f <$> l). rewrite length_fmap.
    rewrite Happ at 2. rewrite length_app. split.
    + intros Hl. apply nil_length_inv. lia.
    + intros ->. cbn. lia.
  - intros Hcum. rewrite Hc.
    rewrite <- (map_map (fun output => reply (decode output)) strip).
    by apply cumulative_strip_lengths.
Qed.

Lemma consume_yields_witness :
  let chunks :=
    (Server.consume Toy.decode Toy.eos_token_id Toy.steps_plain.*1 (Ok tt)).1 in
  chunks = [lit "Al"; lit "Alpacas"; lit "Alpacas are"]
  /\ length chunks = length Toy.steps_plain.*1
  /\ nondecreasing (map length chunks).
Proof.
  destruct (consume_yields Toy.decode Toy.eos_token_id Toy.steps_plain.*1 (Ok tt))
    as (_ & _ & Hc & _ & Hlen & Hgrow).
  split; [exact Hc|]. split.
  - apply Hlen. repeat constructor.
  - apply Hgrow. reflexivity.
Defined.

Example consume_plain :
  Server.consume Toy.decode Toy.eos_token_id Toy.steps_plain.*1 (Ok tt)
  = ([lit "Al"; lit "Alpacas"; lit "Alpacas are"], Ok tt).
Proof. by vm_compute. Qed.

(** ** [generate_with_callback] *)

Section worker_function.

Context {Callback : Type}.
Variable model_generate : gmap string (Server.pyval Callback) -> Server.generation.

Lemma generate_with_callback_fresh callback
    (kwargs : gmap string (Server.pyval Callback)) :
  kwargs !! "stopping_criteria" = None ->
  Server.generate_with_callback Callback model_generate callback kwargs
  = (let kwargs' :=
       <["stopping_criteria" := Server.VCriteria [Server.Stream callback]]> kwargs in
     ([kwargs'], Ok (model_generate kwargs'))).
Proof.
  intros H. unfold Server.generate_with_callback. rewrite H.
  rewrite lookup_insert_eq. cbn [app]. by rewrite insert_insert_eq.
Qed.

Lemma generate_with_callback_append callback
    (kwargs : gmap string (Server.pyval Callback)) l :
  kwargs !! "stopping_criteria" = Some (Server.VCriteria l) ->
  Server.generate_with_callback Callback model_generate callback kwargs
  = (let kwargs' :=
       <["stopping_criteria" :=
           Server.VCriteria (l ++ [Server.Stream callback])]> kwargs in
     ([kwargs'], Ok (model_generate kwargs'))).
Proof.
  intros H. unfold Server.generate_with_callback. by rewrite H, H.
Qed.

End worker_function.

Section evaluate_facts.

Context {Callback : Type}.
Variable tokenizer : list N -> Server.encoding.
Variable tokenizer_decode : list Z -> list N.
Variable eos_token_id : Z.
Variable model_generate : gmap string (Server.pyval Callback) -> Server.generation.
Variable bridge : Callback.

Let evaluate :=
  Server.evaluate Callback tokenizer tokenizer_decode eos_token_id
    model_generate bridge.

(** C2 (amended): the streaming adapter (the iterator or a [Stream]
    hook) is used exactly when [stream_output] is set.  Without it
    [evaluate] makes exactly one synchronous [model.generate] call, with
    no stopping criteria, and yields the one response read from the
    decoded sequence when the call returns and the decoded text holds the
    marker; it yields nothing and raises [IndexError] when the decoded
    text lacks the marker, and yields nothing and raises the exception of
    the call when the call fails. *)
Theorem evaluate_stream_switch (req : Server.request) :
  uses_adapter (evaluate req) = Server.stream_output req
  /\ (Server.stream_output req = false ->
      exists kwargs,
        Server.effects (evaluate req) = [Server.EGenerate kwargs]
        /\ kwargs !! "stopping_criteria" = None
        /\ match Server.final (model_generate kwargs) with
           | Ok s =>
               if contains (lit "### Response:") (tokenizer_decode s)
               then exists response,
                      Prompter.get_response Server.prompter (tokenizer_decode s)
                        = Ok response
                      /\ Server.yields (evaluate req) = [response]
                      /\ Server.outcome (evaluate req) = Ok tt
               else Server.yields (evaluate req) = []
                    /\ Server.outcome (evaluate req) = Raise IndexError
           | Raise e =>
               Server.yields (evaluate req) = []
               /\ Server.outcome (evaluate req) = Raise e
           end).
Proof.
  unfold evaluate, Server.evaluate. rewrite evaluate_prompt.
  destruct (Server.stream_output req) eqn:Es.
  - split; [|done].
    destruct (Server.Iteratorize _ _ _ _) as [calls generator].
    by destruct (Server.consume _ _ _ _).
  - match goal with |- context [Server.final (model_generate ?k)] =>
      set (kwargs := k) end.
    assert (Hk : kwargs !! "stopping_criteria" = None) by done.
    split.
    + destruct (Server.final (model_generate kwargs)) as [s|e].
      * destruct (Prompter.get_response _ _);
          unfold uses_adapter; cbn; by rewrite Hk.
      * unfold uses_adapter; cbn; by rewrite Hk.
    + intros _. exists kwargs.
      destruct (Server.final (model_generate kwargs)) as [s|e] eqn:Ef.
      * destruct (contains (lit "### Response:") (tokenizer_decode s)) eqn:Ec.
        -- destruct (get_response_ok None _ Ec) as [r Hr].
           unfold Server.prompter. rewrite Hr. cbn.
           split; [done|]. split; [done|]. by exists r.
        -- unfold Server.prompter.
           rewrite (get_response_error None _ Ec). by cbn.
      * by cbn.
Qed.

(** C3: for a streamed request the worker function is run with the
    adapter's bridge and calls [model.generate] once; the call gets the
    request's parameters and a [stopping_criteria] list that holds the
    one [Stream] entry wrapping the bridge. *)
Theorem generate_with_callback_once (req : Server.request) :
  Server.stream_output req = true ->
  exists params kwargs,
    Server.effects (evaluate req)
      = [Server.EIteratorize params; Server.EGenerate kwargs]
    /\ Server.generate_with_callback Callback model_generate (Some bridge) params
       = ([kwargs], Ok (model_generate kwargs))
    /\ kwargs !! "stopping_criteria"
       = Some (Server.VCriteria [Server.Stream (Some bridge)])
    /\ forall key, key <> "stopping_criteria" -> kwargs !! key = params !! key.
Proof.
  intros Hs. unfold evaluate, Server.evaluate.
  rewrite evaluate_prompt, Hs.
  match goal with |- context [Server.Iteratorize _ _ ?p _] =>
    set (params := p) end.
  assert (Hp : params !! "stopping_criteria" = None) by done.
  pose proof (generate_with_callback_fresh model_generate (Some bridge) params Hp)
    as Hg. cbn zeta in Hg.
  set (kwargs := <["stopping_criteria" :=
                     Server.VCriteria [Server.Stream (Some bridge)]]> params) in *.
  exists params, kwargs.
  unfold Server.Iteratorize. rewrite Hg.
  destruct (Server.consume _ _ _ _) as [chunks r]. cbn.
  split; [done|]. split; [done|]. split.
  - subst kwargs. by rewrite lookup_insert_eq.
  - intros key Hne. subst kwargs. by rewrite lookup_insert_ne.
Qed.

End evaluate_facts.

(** C2 as stated fails: a request that is not streamed can yield no
    response at all.  Here the one [model.generate] call fails, and its
    exception is all that [evaluate] produces. *)
Lemma evaluate_no_response_counterexample :
  let run :=
    Server.evaluate unit Toy.tokenizer Toy.decode Toy.eos_token_id
      Toy.model_failing tt (Toy.request false) in
  Server.stream_output (Toy.request false) = false
  /\ length (Server.effects run) = 1
  /\ Server.yields run = []
  /\ Server.outcome run = Raise (ModelError 1).
Proof. by vm_compute. Qed.

Lemma evaluate_stream_switch_witness :
  let run :=
    Server.evaluate unit Toy.tokenizer Toy.decode Toy.eos_token_id
      Toy.model_generate tt (Toy.request false) in
  uses_adapter run = false
  /\ Server.yields run = [lit "ok"]
  /\ Server.outcome run = Ok tt.
Proof.
  destruct (evaluate_stream_switch Toy.tokenizer Toy.decode Toy.eos_token_id
              Toy.model_generate tt (Toy.request false)) as [Hu Hs].
  destruct (Hs eq_refl) as (kwargs & He & _ & Hy).
  split; [exact Hu|].
  vm_compute in He. injection He as <-.
  destruct Hy as (response & Hr & Hyield & Ho).
  vm_compute in Hr. injection Hr as <-.
  by split.
Defined.

Lemma generate_with_callback_once_witness :
  exists params kwargs,
    Server.effects
      (Server.evaluate unit Toy.tokenizer Toy.decode Toy.eos_token_id
         Toy.model_generate tt (Toy.request true))
      = [Server.EIteratorize params; Server.EGenerate kwargs]
    /\ Server.generate_with_callback unit Toy.model_generate (Some tt) params
       = ([kwargs], Ok (Toy.model_generate kwargs))
    /\ kwargs !! "stopping_criteria"
       = Some (Server.VCriteria [Server.Stream (Some tt)])
    /\ forall key, key <> "stopping_criteria" -> kwargs !! key = params !! key.
Proof.
  apply (generate_with_callback_once Toy.tokenizer Toy.decode Toy.eos_token_id
           Toy.model_generate tt (Toy.request true)).
  reflexivity.
Defined.

Example evaluate_streamed :
  let run :=
    Server.evaluate unit Toy.tokenizer Toy.decode Toy.eos_token_id
      Toy.model_generate tt (Toy.request true) in
  Server.yields run = [lit "o"; lit "ok"] /\ Server.outcome run = Ok tt.
Proof. by vm_compute. Qed.

(** * The input components and the parameters of [evaluate] *)

(** C4 as stated fails: the 'Top k' slider is declared with minimum 0, so
    a request with every parameter inside its declared range can have
    top-k 0; [evaluate] hands that value to [model.generate]. *)
Lemma evaluate_top_k_zero_counterexample :
  let req := Toy.request_top_k_zero in
  let run :=
    Server.evaluate unit Toy.tokenizer Toy.decode Toy.eos_token_id
      Toy.model_generate tt req in
  Server.top_k req = Server.minimum Server.top_k_slider
  /\ ~ (1 <= Server.top_k req)%Q
  /\ exists kwargs config,
       Server.effects run = [Server.EGenerate kwargs]
       /\ kwargs !! "generation_config" = Some (Server.VConfig config)
       /\ Server.cfg_top_k config = 0%Q.
Proof.
  split; [reflexivity|]. split; [by vm_compute|].
  eexists _, _. split; [reflexivity|]. split; reflexivity.
Qed.

Section parameters.

Context {Callback : Type}.
Variable tokenizer : list N -> Server.encoding.
Variable tokenizer_decode : list Z -> list N.
Variable eos_token_id : Z.
Variable model_generate : gmap string (Server.pyval Callback) -> Server.generation.
Variable bridge : Callback.

(** C4 (amended): the source enforces no bound on the sampling
    parameters.  The input components of [main] declare the ranges [0,1]
    for temperature and top-p, [0,100] in steps of 1 for top-k, [1,4] in
    steps of 1 for the beam count and [16,1024] in steps of 32 for
    max-new-tokens; [evaluate] checks none of them: for every request,
    whatever its values, [evaluate] acts, and every action it takes (the
    construction of the iterator, the call of [model.generate]) carries
    the request's temperature, top-p, top-k and beam count in its
    generation configuration and the request's max-new-tokens, as they
    are. *)
Theorem evaluate_checks_no_bounds (req : Server.request) :
  let run :=
    Server.evaluate Callback tokenizer tokenizer_decode eos_token_id
      model_generate bridge req in
  Server.effects run <> []
  /\ Forall (fun e => carries req (effect_kwargs e)) (Server.effects run)
  /\ declares Server.temperature_slider 0 1 None
  /\ declares Server.top_p_slider 0 1 None
  /\ declares Server.top_k_slider 0 100 (Some 1%Q)
  /\ declares Server.beams_slider 1 4 (Some 1%Q)
  /\ declares Server.max_new_tokens_slider 16 1024 (Some 32%Q).
Proof.
  cbn zeta. split; [|split; [|by repeat split]].
  - unfold Server.evaluate. rewrite evaluate_prompt.
    destruct (Server.stream_output req).
    + destruct (Server.Iteratorize _ _ _ _) as [calls generator].
      by destruct (Server.consume _ _ _ _).
    + destruct (Server.final _) as [s|e]; [|done].
      by destruct (Prompter.get_response _ _).
  - unfold Server.evaluate. rewrite evaluate_prompt.
    destruct (Server.stream_output req).
    + match goal with |- context [Server.Iteratorize _ _ ?p _] =>
        set (params := p) end.
      assert (Hp : params !! "stopping_criteria" = None) by done.
      unfold Server.Iteratorize.
      rewrite (generate_with_callback_fresh model_generate (Some bridge)
                 params Hp). cbn beta iota zeta.
      match goal with |- context [Server.consume ?a ?b ?c ?d] =>
        destruct (Server.consume a b c d) as [chunks r] end.
      cbn. repeat constructor.
    + destruct (Server.final _) as [s|e];
        [destruct (Prompter.get_response _ _)|]; cbn; repeat constructor.
Qed.

End parameters.

Lemma evaluate_checks_no_bounds_witness :
  Forall (fun e => carries (Toy.request true) (effect_kwargs e))
    (Server.effects
       (Server.evaluate unit Toy.tokenizer Toy.decode Toy.eos_token_id
          Toy.model_generate tt (Toy.request true))).
Proof.
  apply (evaluate_checks_no_bounds Toy.tokenizer Toy.decode Toy.eos_token_id
           Toy.model_generate tt (Toy.request true)).
Defined.

Example evaluate_out_of_range :
  let req :=
    {| Server.instruction := lit "Hi"; Server.input := None;
       Server.temperature := 2; Server.top_p := 1; Server.top_k := 1000;
       Server.num_beams := 4; Server.max_new_tokens := 128;
       Server.stream_output := false |} in
  exists kwargs,
    Server.effects
      (Server.evaluate unit Toy.tokenizer Toy.decode Toy.eos_token_id
         Toy.model_generate tt req)
    = [Server.EGenerate kwargs]
    /\ carries req kwargs.
Proof. eexists. split; [reflexivity|]. split; reflexivity. Qed.

(** * Decimal text *)
















(** ** What [int] accepts *)





(** * [get_last_checkpoint] *)



Lemma step_of_name_startswith name n :
  step_of_name name n -> startswith (lit "checkpoint") name = true.
Proof. by intros (suffix & -> & _). Qed.




Section scan.

Variable fs : ModelUtils.filesystem.
Variable dir : list N.

Lemma scan_checkpoints_none names acc :
  (forall name, name ∈ names -> checkpoint_subdir fs dir name = false) ->
  ModelUtils.scan_checkpoints fs dir names acc = Ok acc.
Proof.
  revert acc. induction names as [|name names IH]; intros acc H; [done|].
  cbn [ModelUtils.scan_checkpoints].
  pose proof (H name ltac:(left)) as Hn. unfold checkpoint_subdir in Hn.
  rewrite Hn. apply IH. intros n' Hin. apply H. by right.
Qed.


End scan.

(** ** The scan over any listing *)

Lemma int_of_str_raise s e : ModelUtils.int_of_str s = Raise e -> e = ValueError.
Proof.
  unfold ModelUtils.int_of_str.
  destruct (ModelUtils.c_strip _) as [|c b];
    [|destruct (c =? 45)%N; [|destruct (c =? 43)%N]];
    destruct (ModelUtils.parse_digits _ _ _); first [done | by intros [= <-]].
Qed.

Lemma name_step_cases name :
  name_step name = Raise ValueError \/ exists n, name_step name = Ok n.
Proof.
  destruct (name_step name) as [n|e] eqn:E; [right; by exists n|left].
  by rewrite (int_of_str_raise _ _ E).
Qed.

Section scan_any.

Variable fs : ModelUtils.filesystem.
Variable dir : list N.

Lemma scan_checkpoints_step name names acc :
  ModelUtils.scan_checkpoints fs dir (name :: names) acc
  = if checkpoint_subdir fs dir name
    then let* step := name_step name in
         ModelUtils.scan_checkpoints fs dir names (Z.max acc step)
    else ModelUtils.scan_checkpoints fs dir names acc.
Proof. done. Qed.

(** The scan fails at a checkpoint subdirectory whose name does not leave
    an integer, and otherwise returns the largest of the start value and
    the steps read. *)
Lemma scan_checkpoints_cases names acc :
  (ModelUtils.scan_checkpoints fs dir names acc = Raise ValueError
   /\ exists name, name ∈ names /\ checkpoint_subdir fs dir name = true
        /\ name_step name = Raise ValueError)
  \/ (exists m,
        ModelUtils.scan_checkpoints fs dir names acc = Ok m
        /\ (acc <= m)%Z
        /\ (m = acc \/ exists name, name ∈ names
              /\ checkpoint_subdir fs dir name = true /\ name_step name = Ok m)
        /\ forall name, name ∈ names -> checkpoint_subdir fs dir name = true ->
             exists n, name_step name = Ok n /\ (n <= m)%Z).
Proof.
  revert acc. induction names as [|name names IH]; intros acc.
  { right. exists acc. split; [done|]. split; [lia|]. split; [by left|].
    by intros name ?%elem_of_nil. }
  rewrite scan_checkpoints_step.
  destruct (checkpoint_subdir fs dir name) eqn:Ec.
  - destruct (name_step_cases name) as [Hr|[k Hk]].
    { left. rewrite Hr. split; [done|]. exists name. split; [left|done]. }
    rewrite Hk. cbn [bind].
    destruct (IH (Z.max acc k)) as [[Hr (bad & Hin & Hb)]|(m & Hm & Hle & Hor & Hall)].
    { left. split; [done|]. exists bad. split; [by right|done]. }
    right. exists m. split; [done|]. split; [lia|]. split.
    + destruct Hor as [->|(name' & Hin & Hsub & Hst)].
      * destruct (Z.max_spec acc k) as [[_ ->]|[_ ->]]; [|by left].
        right. exists name. split; [left|done].
      * right. exists name'. split; [by right|done].
    + intros name' [->|Hin]%elem_of_cons Hsub; [|by apply Hall].
      exists k. split; [done|lia].
  - destruct (IH acc) as [[Hr (bad & Hin & Hb)]|(m & Hm & Hle & Hor & Hall)].
    { left. split; [done|]. exists bad. split; [by right|done]. }
    right. exists m. split; [done|]. split; [done|]. split.
    + destruct Hor as [->|(name' & Hin & Hsub & Hst)]; [by left|].
      right. exists name'. split; [by right|done].
    + intros name' [->|Hin]%elem_of_cons Hsub; [congruence|by apply Hall].
Qed.

(** The order of the listing does not matter to the scan. *)
Lemma scan_checkpoints_perm names names' acc :
  names ≡ₚ names' ->
  ModelUtils.scan_checkpoints fs dir names acc
  = ModelUtils.scan_checkpoints fs dir names' acc.
Proof.
  intros Hp. revert acc.
  induction Hp as [|x l l' Hp IH|x y l|l l' l'' Hp1 IH1 Hp2 IH2]; intros acc.
  - done.
  - rewrite !scan_checkpoints_step.
    destruct (checkpoint_subdir fs dir x); [|apply IH].
    destruct (name_step x); cbn [bind]; [apply IH|done].
  - destruct (checkpoint_subdir fs dir x) eqn:Ex,
             (checkpoint_subdir fs dir y) eqn:Ey,
             (name_step_cases x) as [Hx|[a Hx]],
             (name_step_cases y) as [Hy|[b Hy]];
      repeat (rewrite scan_checkpoints_step, ?Ex, ?Ey, ?Hx, ?Hy; cbn [bind]);
      try done.
    apply (f_equal (ModelUtils.scan_checkpoints fs dir l)). lia.
  - by rewrite IH1, IH2.
Qed.

End scan_any.

Lemma scan_checkpoints_ext fs fs' dir names acc :
  same_entries fs fs' ->
  ModelUtils.scan_checkpoints fs dir names acc
  = ModelUtils.scan_checkpoints fs' dir names acc.
Proof.
  intros [Hd He]. revert acc. induction names as [|name names IH]; intros acc.
  - done.
  - rewrite !scan_checkpoints_step. unfold checkpoint_subdir. rewrite <- Hd.
    destruct (_ && _); [|apply IH].
    destruct (name_step name); cbn [bind]; [apply IH|done].
Qed.


(** A subdirectory whose name starts with 'checkpoint' but not with
    'checkpoint-' makes the scan fail in [int]. *)
Example get_last_checkpoint_stray_subdir :
  ModelUtils.get_last_checkpoint dir_stray_subdir (lit "out") = Raise ValueError.
Proof. by vm_compute. Qed.

(** Beside a later checkpoint, 'checkpoint-0' does no harm. *)
Example get_last_checkpoint_zero_and_five :
  ModelUtils.get_last_checkpoint dir_zero_and_five (lit "out")
  = Ok (Some (lit "out/checkpoint-5"), false).
Proof. by vm_compute. Qed.

(** The error of [os.listdir] on a directory that cannot be listed comes
    out of the function. *)
Example get_last_checkpoint_unreadable :
  ModelUtils.get_last_checkpoint dir_unreadable (lit "out") = Raise (OSError 13).
Proof. by vm_compute. Qed.



(** * [find_all_linear_names] *)

(** With an empty memo the module itself comes first. *)
Lemma named_modules_head prefix m :
  exists rest, (ModelUtils.named_modules ∅ prefix m).1 = (prefix, m) :: rest.
Proof.
  destruct m as [ident cls children]. cbn [ModelUtils.named_modules].
  rewrite bool_decide_eq_false_2 by set_solver.
  match goal with |- context [let '(_, _) := ?X in _] =>
    destruct X as [below memo'] end.
  by eexists.
Qed.

Lemma short_name_split name :
  exists n, ModelUtils.short_name (split (lit ".") name) = Ok n.
Proof.
  unfold ModelUtils.short_name.
  pose proof (split_go_nonempty (lit ".") name 0 []) as Hne.
  fold (split (lit ".") name) in Hne.
  destruct (split (lit ".") name) as [|a [|b l]] eqn:E; [done|by eexists|].
  destruct (last (a :: b :: l)) as [n|] eqn:El; [by eexists|].
  by apply last_None in El.
Qed.

Lemma collect_names_bound cls mods acc :
  exists names, ModelUtils.collect_names (Some cls) mods acc = Ok names.
Proof.
  revert acc. induction mods as [|[name m] mods IH]; intros acc; [by eexists|].
  cbn [ModelUtils.collect_names].
  destruct (ModelUtils.isinstance m cls); [|apply IH].
  destruct (short_name_split name) as [n ->]. cbn [bind]. apply IH.
Qed.

(** C10: with [args.bits] other than 4 and 8 the function raises an
    unbound-variable error on the first module instead of matching
    [torch.nn.Linear]; with 4 or 8 it returns a list, which never holds
    'lm_head'. *)
Theorem find_all_linear_names_spec (bits : Z) (model : ModelUtils.module) :
  (bits <> 4%Z -> bits <> 8%Z ->
     ModelUtils.find_all_linear_names bits model = Raise UnboundLocalError)
  /\ (bits = 4%Z \/ bits = 8%Z ->
      exists names,
        ModelUtils.find_all_linear_names bits model = Ok names
        /\ lit "lm_head" ∉ names).
Proof.
  unfold ModelUtils.find_all_linear_names. split.
  - intros H4 H8.
    destruct (Z.eqb_spec bits 4); [done|].
    destruct (Z.eqb_spec bits 8); [done|].
    by destruct (named_modules_head [] model) as [rest ->].
  - intros Hb.
    set (cls := if (bits =? 4)%Z then Some ModelUtils.Linear4bit
                else if (bits =? 8)%Z then Some ModelUtils.Linear8bitLt
                else None).
    assert (exists c, cls = Some c) as [c ->].
    { subst cls. destruct Hb as [-> | ->]; by eexists. }
    destruct (collect_names_bound c (ModelUtils.named_modules ∅ [] model).1 ∅)
      as [names ->].
    cbn [bind]. eexists. split; [done|].
    rewrite elem_of_elements. case_bool_decide; set_solver.
Qed.

Lemma find_all_linear_names_spec_witness :
  ModelUtils.find_all_linear_names 16 model_plain = Raise UnboundLocalError
  /\ exists names,
       ModelUtils.find_all_linear_names 4 model_4bit = Ok names
       /\ lit "lm_head" ∉ names.
Proof.
  split.
  - apply (find_all_linear_names_spec 16 model_plain); lia.
  - apply (find_all_linear_names_spec 4 model_4bit). by left.
Defined.

Example named_modules_4bit :
  (ModelUtils.named_modules ∅ [] model_4bit).1.*1
  = [ []; lit "layers"; lit "layers.q_proj"; lit "layers.v_proj"; lit "lm_head" ].
Proof. by vm_compute. Qed.

(** A layer registered under two names is listed once, under the first. *)
Example named_modules_tied :
  (ModelUtils.named_modules ∅ [] model_tied).1.*1
  = [ []; lit "layers"; lit "layers.q_proj" ].
Proof. by vm_compute. Qed.

Example find_all_linear_names_4bit :
  exists names,
    ModelUtils.find_all_linear_names 4 model_4bit = Ok names
    /\ names ≡ₚ [lit "q_proj"; lit "v_proj"].
Proof.
  unfold ModelUtils.find_all_linear_names.
  assert (ModelUtils.collect_names (Some ModelUtils.Linear4bit)
            (ModelUtils.named_modules ∅ [] model_4bit).1 ∅
          = Ok ({[ lit "lm_head" ]} ∪ ({[ lit "v_proj" ]} ∪ ({[ lit "q_proj" ]} ∪ ∅))))
    as Hc by done.
  cbn [Z.eqb Pos.eqb]. rewrite Hc. cbn [bind].
  eexists. split; [done|].
  rewrite bool_decide_eq_true_2 by set_solver.
  apply NoDup_Permutation.
  - apply NoDup_elements.
  - by repeat (constructor; [set_solver|]); constructor.
  - intros x. rewrite elem_of_elements.
    assert (lit "q_proj" <> lit "lm_head") by done.
    assert (lit "v_proj" <> lit "lm_head") by done.
    set_solver.
Qed.

(** * The streaming adapter *)

Import Adapter.

(** Case analysis of one move. *)
Ltac exec_inv H :=
  match type of H with
  | exec _ ?mv ?s = Some _ =>
      destruct s as [ln sl fl wr ch]; destruct mv;
      unfold exec, work, pull, cancel, put, set_lane, taken in H;
      cbn [lane slot stop_flag wrapper chunks] in H;
      repeat case_match; simplify_eq;
      repeat match goal with
             | G : (length ?l <? capacity) = true |- _ =>
                 destruct l; [clear G | discriminate G]
             end
  end.

Section adapter_facts.

Context {Chunk : Type}.
Variable decode : list Z -> Chunk.
Implicit Types s : state Chunk.

Lemma run_invariant (P : state Chunk -> list event -> Prop) :
  (forall s tr mv s' ev,
     P s tr -> exec decode mv s = Some (s', ev) -> P s' (tr ++ [ev])) ->
  forall sched s tr0 s' tr,
    P s tr0 -> run decode sched s = Some (s', tr) -> P s' (tr0 ++ tr).
Proof.
  intros Hstep. induction sched as [|mv sched IH]; intros s tr0 s' tr HP Hrun.
  - cbn in Hrun. simplify_eq. by rewrite app_nil_r.
  - cbn [run] in Hrun.
    destruct (exec decode mv s) as [[s1 ev]|] eqn:E; [|done].
    destruct (run decode sched s1) as [[s2 tr1]|] eqn:E1; [|done].
    simplify_eq. replace (tr0 ++ ev :: tr1) with ((tr0 ++ [ev]) ++ tr1)
      by (by rewrite <- app_assoc).
    eapply IH; [|done]. by eapply Hstep.
Qed.

Lemma run_state_invariant (P : state Chunk -> Prop) :
  (forall s mv s' ev, P s -> exec decode mv s = Some (s', ev) -> P s') ->
  forall sched s s' tr, P s -> run decode sched s = Some (s', tr) -> P s'.
Proof.
  intros Hstep sched s s' tr HP Hrun.
  apply (run_invariant (fun s _ => P s)
           (fun s _ mv s' ev => Hstep s mv s' ev) sched s [] s' tr HP Hrun).
Qed.

Lemma run_app sched1 sched2 s s1 tr1 s2 tr2 :
  run decode sched1 s = Some (s1, tr1) ->
  run decode sched2 s1 = Some (s2, tr2) ->
  run decode (sched1 ++ sched2) s = Some (s2, tr1 ++ tr2).
Proof.
  revert s tr1. induction sched1 as [|mv sched1 IH]; intros s tr1 H1 H2.
  - cbn in H1. by simplify_eq.
  - cbn [run app] in *.
    destruct (exec decode mv s) as [[s' ev]|]; [|done].
    destruct (run decode sched1 s') as [[s'' tr']|] eqn:E; [|done].
    simplify_eq. by rewrite (IH _ _ E H2).
Qed.

(** ** Every move makes the state smaller *)

Lemma exec_size mv s s' ev :
  exec decode mv s = Some (s', ev) -> size s' < size s.
Proof.
  intros H. exec_inv H; unfold size; cbn;
    repeat match goal with
           | H : todo ?c = _ |- _ => rewrite H
           end; cbn in *; lia.
Qed.

Lemma run_length sched s s' tr :
  run decode sched s = Some (s', tr) -> length sched + size s' <= size s.
Proof.
  revert s tr. induction sched as [|mv sched IH]; intros s tr H.
  - cbn in H. simplify_eq. cbn. lia.
  - cbn [run] in H.
    destruct (exec decode mv s) as [[s1 ev]|] eqn:E; [|done].
    destruct (run decode sched s1) as [[s2 tr1]|] eqn:E1; [|done].
    simplify_eq. apply exec_size in E. apply IH in E1. cbn. lia.
Qed.

(** ** Coherence of lane, slot and wrapper *)

Lemma coherent_init c : coherent (init (Chunk:=Chunk) c).
Proof. unfold coherent. cbn. repeat split; [lia|done]. Qed.

Lemma coherent_step s mv s' ev :
  coherent s -> exec decode mv s = Some (s', ev) -> coherent s'.
Proof.
  unfold coherent, capacity. intros [Hcap Hco] H.
  exec_inv H; cbn in *;
    repeat match goal with
           | H : _ /\ _ |- _ => destruct H
           | H : _ \/ _ |- _ => destruct H
           | H : exists _, _ |- _ => destruct H
           | H : Forall _ (_ :: _) |- _ => apply Forall_cons in H
           end; simplify_eq; cbn in *;
    try done;
    try (split; [lia|]);
    repeat split; try done; try lia;
    try (by destruct (ending _));
    try (by repeat constructor);
    try (by left);
    try (right; split; [done|]; eexists; split; [done|]; done).
Qed.

Lemma coherent_run c sched s tr :
  run decode sched (init c) = Some (s, tr) -> coherent s.
Proof.
  apply (run_state_invariant coherent coherent_step). apply coherent_init.
Qed.

End adapter_facts.

Section adapter_progress.

Context {Chunk : Type}.
Variable decode : list Z -> Chunk.
Implicit Types s : state Chunk.

(** While the sequence is not over, the worker or the wrapper can move:
    nobody waits for ever on the slot. *)
Lemma coherent_progress s :
  coherent s -> terminal (wrapper s) = false ->
  exists mv s' ev, mv <> Cancel /\ exec decode mv s = Some (s', ev).
Proof.
  unfold coherent, capacity. intros [Hcap Hco] Hw.
  destruct s as [ln sl fl wr ch]. cbn in *.
  destruct sl as [|m sl].
  - exists Work. unfold exec, work, put. cbn.
    destruct ln as [c|x c|c|m|].
    + destruct (todo c); by eexists _, _.
    + by eexists _, _.
    + destruct fl; by eexists _, _.
    + by eexists _, _.
    + destruct Hco as [[? _]|(_ & m & ? & _)]; congruence.
  - exists Pull. unfold exec, pull. cbn.
    destruct wr; try done; destruct m; by eexists _, _.
Qed.

Lemma coherent_terminal s :
  coherent s -> terminal (wrapper s) = true -> lane s = Exited /\ slot s = [].
Proof.
  unfold coherent. intros [_ Hco] Hw.
  destruct (lane s); try (destruct Hco as [? _]; congruence).
  destruct Hco as [[_ ?]|[? _]]; [done|congruence].
Qed.

Lemma terminal_quiescent s :
  coherent s -> terminal (wrapper s) = true -> quiescent decode s.
Proof.
  intros Hco Hw. destruct (coherent_terminal s Hco Hw) as [Hl Hs].
  destruct s as [ln sl fl wr ch]. cbn in *. subst.
  intros [| |]; unfold exec, work, pull, cancel; cbn; by destruct wr.
Qed.

Lemma quiescent_exited s : coherent s -> quiescent decode s -> lane s = Exited.
Proof.
  intros Hco Hq. destruct (terminal (wrapper s)) eqn:Hw.
  - by apply coherent_terminal.
  - destruct (coherent_progress s Hco Hw) as (mv & s' & ev & _ & E).
    by rewrite Hq in E.
Qed.

(** From a state that satisfies an invariant of the uncancelled moves,
    working and pulling alone bring the sequence to its end. *)
Lemma drive (inv : state Chunk -> Prop) :
  (forall s mv s' ev,
     inv s -> mv <> Cancel -> exec decode mv s = Some (s', ev) -> inv s') ->
  (forall s, inv s -> coherent s) ->
  forall s, inv s ->
    exists sched s' tr,
      (Cancel ∉ sched) /\ run decode sched s = Some (s', tr)
      /\ inv s' /\ terminal (wrapper s') = true.
Proof.
  intros Hstep Hco s. remember (size s) as n eqn:En. revert s En.
  induction n as [n IH] using lt_wf_ind. intros s -> Hinv.
  destruct (terminal (wrapper s)) eqn:Hw.
  - exists [], s, []. repeat split; [apply not_elem_of_nil|done..].
  - destruct (coherent_progress s (Hco s Hinv) Hw) as (mv & s1 & ev & Hmv & E).
    pose proof (exec_size decode _ _ _ _ E) as Hlt.
    destruct (IH (size s1) Hlt s1 eq_refl (Hstep _ _ _ _ Hinv Hmv E))
      as (sched & s' & tr & Hnc & Hrun & Hinv' & Hw').
    exists (mv :: sched), s', (ev :: tr). repeat split; [|cbn [run]|done..].
    + apply not_elem_of_cons. split; [congruence|done].
    + by rewrite E, Hrun.
Qed.

End adapter_progress.

Section channel_facts.

Context {Chunk : Type}.
Variable decode : list Z -> Chunk.
Implicit Types s : state Chunk.

Lemma puts_snoc tr ev :
  puts (tr ++ [ev]) = puts tr ++ match ev with Put m => [m] | _ => [] end.
Proof. unfold puts. rewrite omap_app. by destruct ev. Qed.

Lemma takes_snoc tr ev :
  takes (tr ++ [ev]) = takes tr ++ match ev with Take m => [m] | _ => [] end.
Proof. unfold takes. rewrite omap_app. by destruct ev. Qed.

Lemma accounted_step s tr mv s' ev :
  accounted s tr -> exec decode mv s = Some (s', ev) ->
  accounted s' (tr ++ [ev]).
Proof.
  intros [Hacc Hord] H. split.
  - rewrite puts_snoc, takes_snoc.
    exec_inv H; cbn [slot] in *; rewrite Hacc, ?app_nil_r, <- ?app_assoc; done.
  - intros tr1 m tr2 E.
    destruct tr2 as [|ev' tr2 _] using rev_ind.
    + apply app_inj_tail in E as [-> ->].
      exec_inv H; cbn [slot] in *; by rewrite Hacc, app_nil_r.
    + rewrite app_comm_cons, app_assoc in E.
      apply app_inj_tail in E as [-> _]. by eapply Hord.
Qed.

(** C6: the slot never holds more than one item, so never more than one
    unread step output; the items put are those taken followed by the
    content of the slot; and when the put of a step output completes,
    everything put before it has been taken. *)
Theorem channel_capacity_one (c : call) (sched : list move)
    (s : state Chunk) (tr : list event) :
  run decode sched (init c) = Some (s, tr) ->
  length (slot s) <= 1
  /\ length (filter (fun m => is_step_output m = true) (slot s)) <= 1
  /\ puts tr = takes tr ++ slot s
  /\ forall tr1 x tr2,
       tr = tr1 ++ Put (StepOutput x) :: tr2 -> takes tr1 = puts tr1.
Proof.
  intros Hrun.
  destruct (coherent_run decode c sched s tr Hrun) as [Hcap _].
  unfold capacity in Hcap.
  pose proof (run_invariant decode accounted accounted_step sched
                (init c) [] s tr) as Hacc.
  destruct Hacc as [Hput Hord]; [by split; [|intros [|??] ???]|done|].
  split; [done|]. split; [|split; [done|]].
  - pose proof (length_filter (fun m => is_step_output m = true) (slot s)). lia.
  - intros tr1 x tr2. apply Hord.
Qed.

End channel_facts.

Lemma channel_capacity_one_witness :
  exists s tr,
    run Toy.decode sched_backpressure (init call_three) = Some (s, tr)
    /\ length (slot s) <= 1
    /\ length (filter (fun m => is_step_output m = true) (slot s)) <= 1
    /\ puts tr = takes tr ++ slot s
    /\ forall tr1 x tr2,
         tr = tr1 ++ Put (StepOutput x) :: tr2 -> takes tr1 = puts tr1.
Proof.
  destruct (run Toy.decode sched_backpressure (init call_three))
    as [[s tr]|] eqn:E; [|by vm_compute in E].
  exists s, tr. split; [done|].
  apply (channel_capacity_one Toy.decode call_three sched_backpressure s tr E).
Defined.

(** With the first output unread in the slot, the worker cannot put the
    second one; it can once the consumer has taken the first. *)
Example put_blocks_on_full_slot :
  run Toy.decode [Work; Work; Work; Work; Work] (init call_three) = None
  /\ exists s tr,
       run Toy.decode [Work; Work; Work; Work; Pull; Work] (init call_three)
       = Some (s, tr)
       /\ slot s = [StepOutput [1%Z; 2%Z]].
Proof. split; [by vm_compute|]. eexists _, _. by vm_compute. Qed.

Lemma marker_not_output r : is_step_output (marker r) = false.
Proof. by destruct r. Qed.

(** A terminal marker in a stream of step outputs closed by a marker is
    that closing marker. *)
Lemma items_tail got m rest steps mk :
  is_step_output m = false ->
  map StepOutput got ++ m :: rest = map StepOutput steps ++ [mk] ->
  got = steps /\ m = mk /\ rest = [].
Proof.
  intros Hm. revert steps.
  induction got as [|g got IH]; intros [|y steps] E; cbn in E.
  - by simplify_eq.
  - by simplify_eq.
  - simplify_eq. by destruct got.
  - simplify_eq. destruct (IH steps) as (-> & -> & ->); done.
Qed.

Lemma items_prefix got rest steps mk :
  is_step_output mk = false ->
  map StepOutput got ++ rest = map StepOutput steps ++ [mk] ->
  got = take (length got) steps.
Proof.
  intros Hm. revert steps.
  induction got as [|g got IH]; intros [|y steps] E; cbn in E; [done..| |].
  - by simplify_eq.
  - simplify_eq. cbn. f_equal. by apply IH.
Qed.

Section delivery.

Context {Chunk : Type}.
Variable decode : list Z -> Chunk.
Implicit Types s : state Chunk.

Lemma run_invariant_uncancelled (P : state Chunk -> Prop) :
  (forall s mv s' ev,
     P s -> mv <> Cancel -> exec decode mv s = Some (s', ev) -> P s') ->
  forall sched s s' tr,
    Cancel ∉ sched -> P s -> run decode sched s = Some (s', tr) -> P s'.
Proof.
  intros Hstep. induction sched as [|mv sched IH]; intros s s' tr Hnc HP Hrun.
  - cbn in Hrun. by simplify_eq.
  - apply not_elem_of_cons in Hnc as [Hmv Hnc]. cbn [run] in Hrun.
    destruct (exec decode mv s) as [[s1 ev]|] eqn:E; [|done].
    destruct (run decode sched s1) as [[s2 tr1]|] eqn:E1; [|done].
    simplify_eq. eapply IH; [done| |done]. eapply Hstep; [done| |done]. congruence.
Qed.

Lemma on_course_init c : on_course decode c (init c).
Proof. split; [done|]. by exists []. Qed.

Lemma on_course_step c s mv s' ev :
  on_course decode c s -> mv <> Cancel -> exec decode mv s = Some (s', ev) ->
  on_course decode c s'.
Proof.
  intros Hoc Hmv H. exec_inv H; try done;
    destruct Hoc as [Hflag Hw]; unfold on_course, pending in *;
    cbn [lane slot stop_flag wrapper chunks lane_items] in *;
    try done; (split; [done|]);
    try (destruct wr; try done);
    destruct Hw as (got & Hch & E);
    first
      [ (* the worker moved: the same outputs are on their way *)
        exists got; split; [done|]; rewrite <- E;
        repeat match goal with H : todo _ = _ |- _ => rewrite H end;
        cbn; by rewrite <- ?app_assoc
      | (* a step output was taken *)
        match goal with
        | |- context [decode ?x] =>
            exists (got ++ [x]); rewrite Hch, !map_app, <- app_assoc; done
        end
      | (* a terminal marker was taken *)
        apply items_tail in E as (-> & Hmk & _); [|done];
        first [ done
              | by destruct (ending c); cbn in *; simplify_eq
              | split; [|done];
                by destruct (ending c) as [[]|]; cbn in *; simplify_eq ] ].
Qed.

Lemma on_course_chunks c s :
  on_course decode c s ->
  exists k, chunks s = map decode (take k (todo c)).
Proof.
  intros [_ Hw]. destruct (wrapper s); try done.
  - destruct Hw as (got & -> & E). exists (length got). f_equal.
    eapply items_prefix; [|done]. apply marker_not_output.
  - destruct Hw as [_ ->]. exists (length (todo c)). by rewrite firstn_all.
  - destruct Hw as [_ ->]. exists (length (todo c)). by rewrite firstn_all.
Qed.

(** An uncancelled run that has come to its end has yielded every step
    output, in order, and ended the way the call did. *)
Lemma uncancelled_run_delivers c sched s tr :
  run decode sched (init c) = Some (s, tr) ->
  Cancel ∉ sched ->
  terminal (wrapper s) = true ->
  chunks s = map decode (todo c)
  /\ wrapper s = match ending c with
                 | Ok _ => Completed
                 | Raise e => Failed e
                 end.
Proof.
  intros Hrun Hnc Ht.
  assert (Hoc : on_course decode c s).
  { eapply (run_invariant_uncancelled (on_course decode c));
      [apply on_course_step|done|apply on_course_init|done]. }
  destruct Hoc as [_ Hw]. destruct (wrapper s); try done.
  - destruct Hw as [Hm ->]. split; [done|]. by destruct (ending c).
  - destruct Hw as [-> ->]. done.
Qed.

(** C5: when the blocking call raises [e] after its steps and the
    consumer keeps pulling, the chunks seen at any moment are the first
    ones of the call, in order; the sequence never ends cleanly; when it
    ends, all the chunks have been seen and the exception raised in the
    consumer is [e]; working and pulling always lead there, and nothing
    else is left to do only there. *)
Theorem exception_reaches_consumer (steps : list (list Z)) (e : exn)
    (sched : list move) (s : state Chunk) (tr : list event) :
  run decode sched (init {| todo := steps; ending := Raise e |}) = Some (s, tr) ->
  Cancel ∉ sched ->
  (exists k, chunks s = map decode (take k steps))
  /\ wrapper s <> Completed /\ wrapper s <> Cancelled
  /\ (forall e', wrapper s = Failed e' ->
        e' = e /\ chunks s = map decode steps)
  /\ (exists sched' s' tr',
        (Cancel ∉ sched') /\ run decode sched' s = Some (s', tr')
        /\ wrapper s' = Failed e /\ chunks s' = map decode steps)
  /\ ((forall mv, mv <> Cancel -> exec decode mv s = None) ->
      wrapper s = Failed e).
Proof.
  intros Hrun Hnc. set (c := {| todo := steps; ending := Raise e |}) in *.
  assert (Hoc : on_course decode c s).
  { eapply (run_invariant_uncancelled (on_course decode c));
      [apply on_course_step|done|apply on_course_init|done]. }
  pose proof (coherent_run decode c sched s tr Hrun) as Hco.
  assert (Hend : forall s', on_course decode c s' -> terminal (wrapper s') = true ->
                 wrapper s' = Failed e /\ chunks s' = map decode steps).
  { intros s' [_ Hw] Ht. unfold c in Hw. cbn in Hw.
    destruct (wrapper s'); try done; destruct Hw as [? ->]; by simplify_eq. }
  split; [apply (on_course_chunks c s Hoc)|].
  split; [intros Hw; by destruct (Hend s Hoc) as [? _]; rewrite Hw in *|].
  split; [intros Hw; by destruct (Hend s Hoc) as [? _]; rewrite Hw in *|].
  split; [|split].
  - intros e' Hw. destruct (Hend s Hoc) as [Hf Hch]; [by rewrite Hw|].
    split; [congruence|done].
  - destruct (drive decode (fun s => on_course decode c s /\ coherent s))
      with (s := s) as (sched' & s' & tr' & Hnc' & Hrun' & [Hoc' _] & Ht).
    + intros s1 mv s2 ev [H1 H2] Hmv E. split;
        [by eapply on_course_step|by eapply coherent_step].
    + by intros s1 [_ ?].
    + done.
    + exists sched', s', tr'. destruct (Hend s' Hoc' Ht). done.
  - intros Hq. destruct (terminal (wrapper s)) eqn:Ht.
    + by destruct (Hend s Hoc Ht).
    + destruct (coherent_progress decode s Hco Ht) as (mv & s' & ev & Hmv & E).
      by rewrite Hq in E.
Qed.

End delivery.

(** The summary of the adapter used in [evaluate] agrees with its runs:
    what [Server.Iteratorize] hands to the loop is what an uncancelled
    run yields to a consumer that does not decode. *)
Lemma Iteratorize_agrees {Callback : Type}
    (func : option Callback -> gmap string (Server.pyval Callback) ->
            list (gmap string (Server.pyval Callback)) * result Server.generation)
    (kwargs : gmap string (Server.pyval Callback)) (bridge : Callback)
    calls g sched s tr :
  func (Some bridge) kwargs = (calls, Ok g) ->
  run (fun toks => toks) sched (init (call_of g)) = Some (s, tr) ->
  Cancel ∉ sched ->
  terminal (wrapper s) = true ->
  let generator := (Server.Iteratorize Callback func kwargs bridge).2 in
  chunks s = Server.outputs generator
  /\ wrapper s = match Server.ending generator with
                 | Ok _ => Completed
                 | Raise e => Failed e
                 end.
Proof.
  intros Hf Hrun Hnc Ht. unfold Server.Iteratorize. rewrite Hf. cbn.
  destruct (uncancelled_run_delivers _ _ _ _ _ Hrun Hnc Ht) as [-> ->].
  split; [by rewrite map_id|]. unfold call_of. cbn. by destruct (Server.final g).
Qed.

Lemma exception_reaches_consumer_witness :
  exists s tr,
    run Toy.decode sched_until_failure (init call_failing) = Some (s, tr)
    /\ wrapper s = Failed (ModelError 7)
    /\ chunks s = map Toy.decode (todo call_failing).
Proof.
  destruct (run Toy.decode sched_until_failure (init call_failing))
    as [[s tr]|] eqn:E; [|by vm_compute in E].
  destruct (exception_reaches_consumer Toy.decode (todo call_failing)
              (ModelError 7) sched_until_failure s tr E)
    as (_ & _ & _ & _ & _ & Hq).
  { unfold sched_until_failure. intros H.
    repeat (apply elem_of_cons in H as [H|H]; [discriminate|]).
    by apply elem_of_nil in H. }
  exists s, tr. split; [done|].
  vm_compute in E. injection E as <- <-.
  split; [|by vm_compute].
  apply Hq. intros [| |] Hmv; [by vm_compute..|done].
Defined.

Lemma after_stop_none tr : SetStop ∉ tr -> after_stop tr = [].
Proof.
  induction tr as [|ev tr IH]; [done|]. intros H.
  apply not_elem_of_cons in H as [Hev Htr]. destruct ev; cbn; auto. done.
Qed.

Lemma after_stop_app tr l :
  SetStop ∈ tr -> after_stop (tr ++ l) = after_stop tr ++ l.
Proof.
  induction tr as [|ev tr IH]; intros H; [by apply elem_of_nil in H|].
  destruct ev; cbn; try done;
    apply IH; by apply elem_of_cons in H as [|].
Qed.

Lemma after_stop_snoc_none tr ev :
  SetStop ∉ tr -> after_stop (tr ++ [ev]) = [].
Proof.
  induction tr as [|ev' tr IH]; intros H.
  - by destruct ev.
  - apply not_elem_of_cons in H as [Hev Htr]. destruct ev'; cbn; auto. done.
Qed.

Lemma count_snoc p tr ev :
  count p (tr ++ [ev]) = count p tr + (if p ev then 1 else 0).
Proof.
  unfold count. rewrite filter_app, length_app. f_equal.
  rewrite filter_cons, filter_nil. by destruct (p ev).
Qed.

Section cancellation.

Context {Chunk : Type}.
Variable decode : list Z -> Chunk.
Implicit Types s : state Chunk.

Lemma stopping_init c : stopping (init (Chunk:=Chunk) c) [].
Proof. unfold stopping. cbn. apply not_elem_of_nil. Qed.

Lemma stopping_off s tr s' ev :
  stop_flag s = false -> stop_flag s' = false -> ev <> SetStop ->
  stopping s tr -> stopping s' (tr ++ [ev]).
Proof.
  unfold stopping. intros -> -> Hev H.
  rewrite elem_of_app, list_elem_of_singleton. intros [?|?]; congruence.
Qed.

Lemma stopping_set s tr s' :
  stop_flag s = false -> stop_flag s' = true -> wrapper s' = Draining ->
  stopping s tr -> stopping s' (tr ++ [SetStop]).
Proof.
  unfold stopping. intros -> -> Hw H.
  rewrite after_stop_snoc_none by done. cbn.
  split; [set_solver|]. split; [by left|]. split; [apply not_elem_of_nil|].
  split; [lia|]. by destruct (lane s').
Qed.

Lemma stopping_on s tr s' ev :
  stop_flag s = true -> stop_flag s' = true ->
  wrapper s' = Draining \/ wrapper s' = Cancelled ->
  ev <> Checked false ->
  (is_gen_step ev = true -> exists c, lane s = Generating c) ->
  (forall c, lane s' = Generating c ->
     lane s = lane s' /\ is_gen_step ev = false) ->
  stopping s tr -> stopping s' (tr ++ [ev]).
Proof.
  unfold stopping. intros -> -> Hw Hev Hgen Hlane (Hin & _ & Hchk & Hcnt & Hg).
  rewrite after_stop_app by done. rewrite count_snoc.
  split; [set_solver|]. split; [done|]. split; [|split].
  - rewrite elem_of_app, list_elem_of_singleton. intros [?|?]; congruence.
  - destruct (is_gen_step ev) eqn:E; [|lia].
    destruct (Hgen eq_refl) as [c Hc]. rewrite Hc in Hg. lia.
  - destruct (lane s') eqn:El; try done.
    destruct (Hlane _ eq_refl) as [Hl ->]. rewrite Hl in Hg. lia.
Qed.

Lemma stopping_step s tr mv s' ev :
  stopping s tr -> exec decode mv s = Some (s', ev) -> stopping s' (tr ++ [ev]).
Proof.
  intros Hst H.
  assert (Hwr : stop_flag s = true ->
                wrapper s = Draining \/ wrapper s = Cancelled).
  { unfold stopping in Hst. intros E. rewrite E in Hst. tauto. }
  exec_inv H; cbn [stop_flag wrapper] in Hwr;
    first
      [ (* the consumer cancels *)
        destruct fl;
        [ by destruct (Hwr eq_refl)
        | refine (stopping_set _ _ _ _ _ _ Hst); reflexivity ]
      | (* the flag is known to be off *)
        refine (stopping_off _ _ _ _ _ _ _ Hst); [reflexivity..|discriminate]
      | (* the flag is known to be set *)
        refine (stopping_on _ _ _ _ _ _ _ _ _ _ Hst); cbn;
        [ reflexivity | reflexivity | by apply Hwr | discriminate
        | by eauto | by intros ? [=] ]
      | destruct fl;
        [ refine (stopping_on _ _ _ _ _ _ _ _ _ _ Hst); cbn;
          [ reflexivity | reflexivity
          | first [by apply Hwr | by right | by destruct (Hwr eq_refl)]
          | discriminate
          | first [discriminate | by eauto]
          | first [by intros ? [=] | by intros ? [= ->]] ]
        | refine (stopping_off _ _ _ _ _ _ _ Hst);
          [reflexivity..|discriminate] ] ].
Qed.

Lemma draining_step s mv s' ev :
  stop_flag s = true /\ (wrapper s = Draining \/ wrapper s = Cancelled) ->
  exec decode mv s = Some (s', ev) ->
  stop_flag s' = true /\ (wrapper s' = Draining \/ wrapper s' = Cancelled).
Proof.
  intros [Hf Hw] H. exec_inv H; cbn in *; subst;
    first [ by destruct Hw | by split; [|left] | by split; [|right] | by split ].
Qed.

(** C7: once the consumer has set the stop flag, at most one more
    generation step runs and every reading of the flag by the bridge sees
    it set; the worker lane can always be brought to its exit, with the
    wrapper cancelled, and a run that cannot go on has the lane exited
    (none is left blocked on a put). *)
Theorem cancellation_is_cooperative (c : call) (sched : list move)
    (s : state Chunk) (tr : list event) :
  run decode sched (init c) = Some (s, tr) ->
  count is_gen_step (after_stop tr) <= 1
  /\ (Checked false ∉ after_stop tr)
  /\ (stop_flag s = true ->
      exists sched' s' tr',
        run decode sched' s = Some (s', tr')
        /\ lane s' = Exited /\ wrapper s' = Cancelled)
  /\ (quiescent decode s -> lane s = Exited).
Proof.
  intros Hrun.
  pose proof (coherent_run decode c sched s tr Hrun) as Hco.
  pose proof (run_invariant decode stopping stopping_step sched (init c) [] s tr
                (stopping_init c) Hrun) as Hst.
  cbn [app] in Hst. unfold stopping in Hst.
  split; [|split; [|split]].
  - destruct (stop_flag s); [tauto|]. rewrite after_stop_none by done. cbn. lia.
  - destruct (stop_flag s); [tauto|]. rewrite after_stop_none by done.
    apply not_elem_of_nil.
  - intros Hf. rewrite Hf in Hst. destruct Hst as (_ & Hw & _).
    destruct (drive decode
                (fun s => coherent s /\ stop_flag s = true
                          /\ (wrapper s = Draining \/ wrapper s = Cancelled)))
      with (s := s) as (sched' & s' & tr' & _ & Hrun' & (Hco' & _ & Hw') & Ht).
    + intros s1 mv s2 ev (H1 & H2) _ E. split;
        [by eapply coherent_step|by eapply draining_step].
    + by intros s1 [? _].
    + done.
    + exists sched', s', tr'. split; [done|].
      split; [by apply coherent_terminal|].
      destruct Hw' as [Hw'|Hw']; [by rewrite Hw' in Ht|done].
  - by apply quiescent_exited.
Qed.

End cancellation.

Lemma cancellation_is_cooperative_witness :
  exists s tr,
    run Toy.decode sched_cancel_after_first (init call_three) = Some (s, tr)
    /\ stop_flag s = true
    /\ count is_gen_step (after_stop tr) = 1
    /\ exists sched' s' tr',
         run Toy.decode sched' s = Some (s', tr')
         /\ lane s' = Exited /\ wrapper s' = Cancelled.
Proof.
  destruct (run Toy.decode sched_cancel_after_first (init call_three))
    as [[s tr]|] eqn:E; [|by vm_compute in E].
  destruct (cancellation_is_cooperative Toy.decode call_three
              sched_cancel_after_first s tr E) as (_ & _ & Hlive & _).
  exists s, tr. split; [done|].
  vm_compute in E. injection E as <- <-.
  split; [done|]. split; [by vm_compute|]. by apply Hlive.
Defined.

(** The consumer cancels after the first chunk: the step then under way
    is finished and put, the bridge sees the flag, and the lane exits once
    the wrapper has drained the slot. *)
Example cancel_after_first_chunk :
  exists s tr,
    run Toy.decode
      (sched_cancel_after_first ++ [Pull; Work; Work; Pull]) (init call_three)
    = Some (s, tr)
    /\ chunks s = [Toy.decode [1%Z]]
    /\ lane s = Exited /\ wrapper s = Cancelled
    /\ after_stop tr
       = [GenStep [1%Z; 2%Z]; Put (StepOutput [1%Z; 2%Z]);
          Take (StepOutput [1%Z; 2%Z]); Checked true; Put StopAcknowledged;
          Take StopAcknowledged].
Proof. eexists _, _. by vm_compute. Qed.

(** * Further properties of the prompter *)

(** Ahead of a marker that follows marker-free text there is no other
    occurrence of the marker. *)
Lemma first_marker a rest i :
  contains (lit "### Response:") a = false -> i < length a ->
  startswith (lit "### Response:") (drop i (a ++ lit "### Response:" ++ rest))
  = false.
Proof.
  intros Ha Hi.
  destruct (startswith _ (drop i _)) eqn:E; [exfalso|done].
  rewrite drop_app_le in E by lia.
  apply startswith_app_cases in E as [E|(p' & Hp & E)].
  { by rewrite contains_false_drop in E. }
  assert (Hlen : length (drop i a) + length p' = 13).
  { apply (f_equal length) in Hp. rewrite length_app in Hp.
    change (length (lit "### Response:")) with 13 in Hp. lia. }
  assert (Hda : 0 < length (drop i a)) by (rewrite length_drop; lia).
  destruct p' as [|c p'].
  { rewrite app_nil_r in Hp.
    pose proof (contains_false_drop _ a i Ha) as E'.
    rewrite <- Hp in E'. by rewrite startswith_refl in E'. }
  assert (Hp' : c :: p' = drop (length (drop i a)) (lit "### Response:")).
  { rewrite Hp. by rewrite drop_app_length. }
  rewrite Hp' in E.
  apply startswith_inv in E as [t Ht].
  pose proof (marker_border_free (length (drop i a)) t) as Hb.
  rewrite <- Ht in Hb. rewrite startswith_app in Hb.
  cbn [length] in Hlen. change (length (lit "### Response:")) with 13 in Hb.
  discriminate Hb. lia.
Qed.

(** X1: [get_response] returns the stripped text between the first
    marker and the second one, or the end of the text when there is no
    second marker; what follows a second marker is dropped. *)
Theorem get_response_between_markers (tmpl : option (list N))
    (a b c : list N) :
  contains (lit "### Response:") a = false ->
  contains (lit "### Response:") b = false ->
  Prompter.get_response (Prompter.init tmpl) (a ++ lit "### Response:" ++ b)
  = Ok (strip b)
  /\ Prompter.get_response (Prompter.init tmpl)
       (a ++ lit "### Response:" ++ b ++ lit "### Response:" ++ c)
     = Ok (strip b).
Proof.
  intros Ha Hb. unfold Prompter.get_response.
  cbn [Prompter.init Prompter.reponse_split]. split.
  - rewrite split_first;
      [|apply marker_nonempty|by intros i Hi; apply first_marker].
    by rewrite split_none.
  - rewrite split_first;
      [|apply marker_nonempty|by intros i Hi; apply first_marker].
    rewrite split_first;
      [|apply marker_nonempty|by intros i Hi; apply first_marker].
    done.
Qed.

Lemma get_response_between_markers_witness :
  Prompter.get_response (Prompter.init None)
    (lit "Q" ++ lit "### Response:" ++ lit " yes ")
  = Ok (strip (lit " yes "))
  /\ Prompter.get_response (Prompter.init None)
       (lit "Q" ++ lit "### Response:" ++ lit " yes " ++ lit "### Response:"
        ++ lit "no")
     = Ok (strip (lit " yes ")).
Proof.
  apply (get_response_between_markers None (lit "Q") (lit " yes ") (lit "no"));
    reflexivity.
Defined.

(** X2: [get_response] returns a text exactly when its argument holds the
    marker, and raises [IndexError] exactly when it does not. *)
Theorem get_response_defined (tmpl : option (list N)) (output : list N) :
  (contains (lit "### Response:") output = true
   /\ exists response,
        Prompter.get_response (Prompter.init tmpl) output = Ok response)
  \/ (contains (lit "### Response:") output = false
      /\ Prompter.get_response (Prompter.init tmpl) output = Raise IndexError).
Proof.
  destruct (contains (lit "### Response:") output) eqn:E.
  - left. split; [done|]. by apply get_response_ok.
  - right. split; [done|]. by apply get_response_error.
Qed.

(** The prompt built from a template with its fields filled in. *)
Lemma format_total d instruction input :
  d = Prompter.PROMPT_DICT \/ d = Prompter.ALPACA_PROMPT_DICT ->
  exists pre mid,
    match input with
    | Some i => Prompter.format (Prompter.prompt_input d) instruction (Some i)
    | None => Prompter.format (Prompter.prompt_no_input d) instruction None
    end = Ok (pre ++ instruction ++ mid ++ lit "### Response:")
    /\ (forall i, input = Some i -> d = Prompter.ALPACA_PROMPT_DICT ->
          exists l r, mid = l ++ i ++ r).
Proof.
  intros [-> | ->]; destruct input as [i|].
  - exists [], [nl; nl]. split; [done|]. intros i' _ [=].
  - exists [], [nl; nl]. split; [done|]. intros i' [=].
  - exists (lit "Below is an instruction that describes a task, paired with an input that provides further context. Write a response that appropriately completes the request."
            ++ nl :: nl :: lit "### Instruction:" ++ [nl]),
           (nl :: nl :: lit "### Input:" ++ nl :: i ++ [nl; nl]).
    split.
    + cbn [Prompter.format Prompter.prompt_input Prompter.ALPACA_PROMPT_DICT bind].
      f_equal; repeat (rewrite <- ?app_assoc; cbn [app]); done.
    + intros i' [= <-] _.
      exists (nl :: nl :: lit "### Input:" ++ [nl]), [nl; nl].
      repeat (rewrite <- ?app_assoc; cbn [app]). done.
  - exists (lit "Below is an instruction that describes a task. Write a response that appropriately completes the request."
            ++ nl :: nl :: lit "### Instruction:" ++ [nl]),
           [nl; nl].
    split; [|intros i' [=]].
    cbn [Prompter.format Prompter.prompt_no_input Prompter.ALPACA_PROMPT_DICT bind].
    f_equal; repeat (rewrite <- ?app_assoc; cbn [app]); done.
Qed.

(** X3: [generate_prompt] never fails, whatever the template name, the
    instruction, the input and the response: the prompt holds the
    instruction verbatim and ends in the marker followed by the response
    (by nothing for a response that is [None] or empty); with the
    'alpaca' templates and an input, the input stands verbatim between
    the instruction and the marker. *)
Theorem generate_prompt_total (tmpl : option (list N))
    (instruction : list N) (input response : option (list N)) :
  exists pre mid,
    Prompter.generate_prompt (Prompter.init tmpl) instruction input response
    = Ok (pre ++ instruction ++ mid ++ lit "### Response:"
          ++ response_text response)
    /\ (forall i, input = Some i -> tmpl = Some (lit "alpaca") ->
          exists l r, mid = l ++ i ++ r).
Proof.
  assert (exists d, Prompter.dict (Prompter.init tmpl) = d
            /\ (d = Prompter.PROMPT_DICT \/ d = Prompter.ALPACA_PROMPT_DICT)
            /\ (tmpl = Some (lit "alpaca") -> d = Prompter.ALPACA_PROMPT_DICT))
    as (d & Hd & Hor & Halp).
  { unfold Prompter.init. cbn [Prompter.dict].
    destruct tmpl as [name|]; [|by eexists; split; [|split; [left|]]].
    unfold str_eqb. case_bool_decide as Hn.
    - eexists; split; [done|split; [by right|done]].
    - eexists; split; [done|split; [by left|]]. by intros [= ->]. }
  destruct (format_total d instruction input Hor) as (pre & mid & Hf & Hin).
  exists pre, mid. split.
  - assert (Prompter.generate_prompt (Prompter.init tmpl) instruction input None
            = Ok (pre ++ instruction ++ mid ++ lit "### Response:")) as Hg.
    { unfold Prompter.generate_prompt. rewrite Hd.
      destruct input; by rewrite Hf. }
    rewrite (generate_prompt_response _ _ _ response _ Hg).
    by rewrite <- !app_assoc.
  - intros i Hi Ht. by apply (Hin i Hi), Halp.
Qed.

Lemma generate_prompt_total_witness :
  exists pre mid,
    Prompter.generate_prompt (Prompter.init (Some (lit "alpaca"))) (lit "Add")
      (Some (lit "1 2")) (Some (lit "3"))
    = Ok (pre ++ lit "Add" ++ mid ++ lit "### Response:" ++ lit "3")
    /\ exists l r, mid = l ++ lit "1 2" ++ r.
Proof.
  destruct (generate_prompt_total (Some (lit "alpaca")) (lit "Add")
              (Some (lit "1 2")) (Some (lit "3"))) as (pre & mid & H & Hin).
  exists pre, mid. split; [exact H|]. apply (Hin (lit "1 2")); reflexivity.
Defined.

(** With the default templates the input is not part of the prompt. *)
Lemma generate_prompt_ignores_input tmpl instruction input input' response :
  tmpl <> Some (lit "alpaca") ->
  Prompter.generate_prompt (Prompter.init tmpl) instruction input response
  = Prompter.generate_prompt (Prompter.init tmpl) instruction input' response.
Proof.
  intros Ht.
  assert (Prompter.dict (Prompter.init tmpl) = Prompter.PROMPT_DICT) as Hd.
  { unfold Prompter.init. cbn [Prompter.dict].
    destruct tmpl as [name|]; [|done].
    unfold str_eqb. case_bool_decide; [congruence|done]. }
  unfold Prompter.generate_prompt. rewrite Hd.
  by destruct input, input'.
Qed.

Section evaluate_input.

Context {Callback : Type}.
Variable tokenizer : list N -> Server.encoding.
Variable tokenizer_decode : list Z -> list N.
Variable eos_token_id : Z.
Variable model_generate : gmap string (Server.pyval Callback) -> Server.generation.
Variable bridge : Callback.

(** X4: the content of the 'Input' box has no effect on [evaluate]: the
    prompter of [main] is built with the default templates, which do not
    name the input, so the calls made, the chunks yielded and the way
    the generator ends are the same for every input. *)
Theorem evaluate_ignores_input (req : Server.request)
    (input : option (list N)) :
  Server.evaluate Callback tokenizer tokenizer_decode eos_token_id
    model_generate bridge (with_input req input)
  = Server.evaluate Callback tokenizer tokenizer_decode eos_token_id
      model_generate bridge req.
Proof.
  unfold Server.evaluate, with_input.
  cbn [Server.instruction Server.input Server.temperature Server.top_p
       Server.top_k Server.num_beams Server.max_new_tokens
       Server.stream_output].
  unfold Server.prompter.
  by rewrite (generate_prompt_ignores_input None (Server.instruction req)
                input (Server.input req) None).
Qed.

End evaluate_input.

(** * Further properties of the streaming loop and of the worker function *)

(** X5: the streaming loop of [evaluate] yields one chunk, the response
    read off the decoded text, for each step ahead of the first step that
    is empty, ends in the EOS token or decodes to a text without the
    marker, and nothing from that step on.  At a step that ends in EOS the
    loop ends normally, whatever the generator would do later; at an
    empty step or a text without the marker it raises [IndexError]; with
    no such step it ends as the generator ends. *)
Theorem consume_until_unstreamable (decode : list Z -> list N) (eos : Z)
    (outs : list (list Z)) (ending : result unit) :
  let r := Server.consume decode eos outs ending in
  Forall2
    (fun output chunk =>
       Prompter.get_response Server.prompter (decode output) = Ok chunk)
    (streamed decode eos outs).1 r.1
  /\ r.2 = match (streamed decode eos outs).2 with
           | [] => ending
           | output :: _ =>
               if bool_decide (last output = Some eos) then Ok tt
               else Raise IndexError
           end.
Proof.
  induction outs as [|o outs [IH1 IH2]]; [by cbn; split; [constructor|]|].
  cbn [Server.consume streamed]. unfold streamable.
  destruct (last o) as [t|] eqn:El;
    [|cbn; split; [constructor|by rewrite El]].
  destruct (Z.eqb_spec t eos) as [->|Hne].
  { cbn. split; [constructor|]. by rewrite bool_decide_eq_true_2. }
  cbn [negb andb].
  destruct (contains (lit "### Response:") (decode o)) eqn:Ec.
  - destruct (get_response_ok None (decode o) Ec) as [chunk Hc].
    unfold Server.prompter in *. rewrite Hc.
    destruct (streamed decode eos outs) as [pre post].
    destruct (Server.consume decode eos outs ending) as [chunks r].
    cbn in *. split; [by constructor|done].
  - unfold Server.prompter. rewrite (get_response_error None (decode o) Ec).
    cbn. split; [constructor|].
    rewrite El. rewrite bool_decide_eq_false_2; [done|congruence].
Qed.

Section worker_function_cases.

Context {Callback : Type}.
Variable model_generate : gmap string (Server.pyval Callback) -> Server.generation.

(** X6: whatever keyword arguments it is given, [generate_with_callback]
    either finds a value under 'stopping_criteria' that is not a list and
    raises [AttributeError] without calling [model.generate], or calls
    [model.generate] exactly once with the same keyword arguments except
    for 'stopping_criteria', which holds the criteria it was given (none
    if the key was absent), in order, followed by one [Stream] hook that
    wraps the callback. *)
Theorem generate_with_callback_cases (callback : option Callback)
    (kwargs : gmap string (Server.pyval Callback)) :
  let r := Server.generate_with_callback Callback model_generate callback kwargs in
  match kwargs !! "stopping_criteria" with
  | Some (Server.VCriteria _) | None =>
      let given :=
        match kwargs !! "stopping_criteria" with
        | Some (Server.VCriteria l) => l
        | _ => []
        end in
      exists kwargs',
        r = ([kwargs'], Ok (model_generate kwargs'))
        /\ kwargs' !! "stopping_criteria"
           = Some (Server.VCriteria (given ++ [Server.Stream callback]))
        /\ forall key, key <> "stopping_criteria"%string ->
             kwargs' !! key = kwargs !! key
  | Some _ => r = ([], Raise AttributeError)
  end.
Proof.
  cbn zeta.
  destruct (kwargs !! "stopping_criteria") as [v|] eqn:E.
  - destruct v as [ids|c|b|n|l];
      try by (unfold Server.generate_with_callback; rewrite E, E).
    rewrite (generate_with_callback_append model_generate callback kwargs l E).
    eexists. split; [done|]. split.
    + by rewrite lookup_insert_eq.
    + intros key Hk. by rewrite lookup_insert_ne.
  - rewrite (generate_with_callback_fresh model_generate callback kwargs E).
    eexists. split; [done|]. split.
    + by rewrite lookup_insert_eq.
    + intros key Hk. by rewrite lookup_insert_ne.
Qed.

End worker_function_cases.

Lemma generate_with_callback_cases_witness :
  let kwargs : gmap string (Server.pyval unit) :=
    {[ "stopping_criteria"%string := Server.VCriteria [Server.OtherCriterion 7];
       "max_new_tokens"%string := Server.VNum 16%Q ]} in
  exists kwargs',
    Server.generate_with_callback unit Toy.model_generate (Some tt) kwargs
    = ([kwargs'], Ok (Toy.model_generate kwargs'))
    /\ kwargs' !! "stopping_criteria"
       = Some (Server.VCriteria [Server.OtherCriterion 7; Server.Stream (Some tt)])
    /\ kwargs' !! "max_new_tokens" = Some (Server.VNum 16%Q).
Proof.
  intros kwargs.
  pose proof (generate_with_callback_cases Toy.model_generate (Some tt) kwargs)
    as H.
  cbn zeta in H.
  change (kwargs !! "stopping_criteria")
    with (Some (Server.VCriteria (Callback:=unit) [Server.OtherCriterion 7])) in H.
  cbn iota in H. destruct H as (kwargs' & Hr & Hc & Hk).
  exists kwargs'. split; [exact Hr|]. split; [exact Hc|].
  rewrite Hk; [reflexivity|discriminate].
Defined.

(** * Further properties of [find_all_linear_names] *)

(** Splitting at a single character splits both sides of any of its
    occurrences. *)
Lemma split_go_char c a b cur :
  split_go [c] (a ++ c :: b) 0 cur = split_go [c] a 0 cur ++ split_go [c] b 0 [].
Proof.
  revert cur. induction a as [|d a IH]; intros cur.
  - cbn. by rewrite N.eqb_refl.
  - cbn [app split_go startswith length]. destruct (c =? d)%N; cbn.
    + by rewrite IH.
    + apply IH.
Qed.

Lemma contains_char c s : c ∉ s -> contains [c] s = false.
Proof.
  induction s as [|d s IH]; intros Hc; [done|].
  apply not_elem_of_cons in Hc as [Hd Hs]. cbn.
  destruct (N.eqb_spec c d); [done|]. by apply IH.
Qed.

Lemma split_go_char_none c s cur :
  c ∉ s -> split_go [c] s 0 cur = [rev cur ++ s].
Proof. intros Hc. by apply split_go_none, contains_char. Qed.

Lemma last_component_exists full : exists x, last_component full x.
Proof.
  induction full as [|d t (x & Hx & [->|(pre & ->)])].
  - exists []. split; [by intros ?%elem_of_nil|by left].
  - destruct (decide (d = 46%N)) as [->|Hd].
    + exists x. split; [done|]. right. by exists [].
    + exists (d :: x). split; [|by left]. by intros [?|?]%elem_of_cons.
  - exists x. split; [done|]. right. by exists (d :: pre).
Qed.

Lemma short_name_last_component full x :
  last_component full x -> ModelUtils.short_name (split (lit ".") full) = Ok x.
Proof.
  intros [Hx [->|(pre & ->)]]; unfold split; change (lit ".") with [46%N].
  - by rewrite split_go_char_none.
  - cbn [app]. rewrite split_go_char, (split_go_char_none _ x) by done.
    cbn [rev app]. unfold ModelUtils.short_name.
    pose proof (split_go_nonempty [46%N] pre 0 []) as Hne.
    destruct (split_go [46%N] pre 0 []) as [|p l]; [done|].
    cbn [app]. destruct (l ++ [x]) as [|y l'] eqn:E.
    { by destruct l. }
    rewrite <- E. by rewrite app_comm_cons, last_snoc.
Qed.

Lemma short_name_inv full x :
  ModelUtils.short_name (split (lit ".") full) = Ok x -> last_component full x.
Proof.
  intros H. destruct (last_component_exists full) as [x' Hx'].
  rewrite (short_name_last_component _ _ Hx') in H. by injection H as <-.
Qed.

Lemma collect_names_spec cls mods acc names :
  ModelUtils.collect_names (Some cls) mods acc = Ok names ->
  forall x, x ∈ names <->
    x ∈ acc \/ exists full m, (full, m) ∈ mods
                 /\ ModelUtils.isinstance m cls = true
                 /\ last_component full x.
Proof.
  revert acc. induction mods as [|[name m] mods IH]; intros acc H x.
  - injection H as <-. split; [by left|]. intros [?|(? & ? & ?%elem_of_nil & _)]; done.
  - cbn [ModelUtils.collect_names] in H.
    destruct (ModelUtils.isinstance m cls) eqn:Ei.
    + destruct (last_component_exists name) as [n Hn].
      rewrite (short_name_last_component _ _ Hn) in H. cbn [bind] in H.
      rewrite (IH _ H x). split.
      * intros [[->%elem_of_singleton|Hacc]%elem_of_union|(full & m' & Hin & Hm & Hl)].
        -- right. exists name, m. split; [left|done].
        -- by left.
        -- right. exists full, m'. split; [by right|done].
      * intros [Hacc|(full & m' & Hin & Hm & Hl)]; [left; set_solver|].
        apply elem_of_cons in Hin as [[= -> ->]|Hin].
        -- left. apply elem_of_union. left. apply elem_of_singleton.
           pose proof (short_name_last_component _ _ Hl) as E.
           rewrite (short_name_last_component _ _ Hn) in E. by injection E.
        -- right. by exists full, m'.
    + rewrite (IH _ H x). split.
      * intros [?|(full & m' & Hin & Hm & Hl)]; [by left|].
        right. exists full, m'. split; [by right|done].
      * intros [?|(full & m' & Hin & Hm & Hl)]; [by left|].
        apply elem_of_cons in Hin as [[= -> ->]|Hin]; [congruence|].
        right. by exists full, m'.
Qed.

(** X7: with [args.bits] 4 or 8, [find_all_linear_names] returns, without
    repetition, exactly the last dotted components of the names under
    which [named_modules] lists an instance of the chosen class
    ([Linear4bit] or [Linear8bitLt], subclasses included), 'lm_head'
    left out.  [named_modules] lists each module object once, under the
    first name it is reached by, so a second name of a layer contributes
    nothing; the model itself is listed under the empty name, so a model
    that is such an instance contributes the empty string. *)
Theorem find_all_linear_names_exact (bits : Z) (model : ModelUtils.module) :
  bits = 4%Z \/ bits = 8%Z ->
  exists names,
    ModelUtils.find_all_linear_names bits model = Ok names
    /\ NoDup names
    /\ forall x, x ∈ names <->
         x <> lit "lm_head"
         /\ exists full m,
              (full, m) ∈ (ModelUtils.named_modules ∅ [] model).1
              /\ ModelUtils.isinstance m (linear_class bits) = true
              /\ last_component full x.
Proof.
  intros Hb. unfold ModelUtils.find_all_linear_names.
  assert ((if (bits =? 4)%Z then Some ModelUtils.Linear4bit
           else if (bits =? 8)%Z then Some ModelUtils.Linear8bitLt
           else None) = Some (linear_class bits)) as ->.
  { unfold linear_class. by destruct Hb as [-> | ->]. }
  destruct (collect_names_bound (linear_class bits)
              (ModelUtils.named_modules ∅ [] model).1 ∅) as [names Hc].
  rewrite Hc. cbn [bind]. eexists. split; [done|]. split.
  { apply NoDup_elements. }
  intros x. rewrite elem_of_elements.
  pose proof (collect_names_spec _ _ _ _ Hc x) as Hx.
  case_bool_decide as Hlm.
  - rewrite elem_of_difference, elem_of_singleton, Hx. set_solver.
  - rewrite Hx. split.
    + intros [?%elem_of_empty|H]; [done|]. split; [|done].
      intros ->. apply Hlm. apply (collect_names_spec _ _ _ _ Hc). by right.
    + intros [_ H]. by right.
Qed.

Lemma find_all_linear_names_exact_witness :
  exists names,
    ModelUtils.find_all_linear_names 4 model_4bit = Ok names
    /\ NoDup names
    /\ forall x, x ∈ names <->
         x <> lit "lm_head"
         /\ exists full m,
              (full, m) ∈ (ModelUtils.named_modules ∅ [] model_4bit).1
              /\ ModelUtils.isinstance m (linear_class 4) = true
              /\ last_component full x.
Proof. apply (find_all_linear_names_exact 4 model_4bit). left. reflexivity. Defined.

(** The second name of a shared layer is not returned. *)
Example find_all_linear_names_tied :
  ModelUtils.find_all_linear_names 4 model_tied = Ok [lit "q_proj"].
Proof. by vm_compute. Qed.

(** * Further properties of [get_last_checkpoint] *)

(** X8: the result of [get_last_checkpoint] does not depend on the order
    in which [os.listdir] returns the entries: two file systems that
    answer [isdir] and [exists] alike and list the same entries of the
    directory, in any order (or fail to list it with the same error),
    give the same result, the same error included. *)
Theorem get_last_checkpoint_order (fs fs' : ModelUtils.filesystem)
    (dir : list N) :
  same_entries fs fs' ->
  same_listing (ModelUtils.listdir fs dir) (ModelUtils.listdir fs' dir) ->
  ModelUtils.get_last_checkpoint fs dir = ModelUtils.get_last_checkpoint fs' dir.
Proof.
  intros Hs Hp. unfold ModelUtils.get_last_checkpoint.
  destruct Hs as [Hd He]. rewrite <- Hd, <- He.
  destruct (ModelUtils.isdir fs dir); [|done].
  destruct (ModelUtils.exists_ fs _); [done|].
  destruct (ModelUtils.listdir fs dir) as [names|e],
           (ModelUtils.listdir fs' dir) as [names'|e']; cbn in Hp;
    try done; [|by subst].
  cbn [bind]. rewrite (scan_checkpoints_perm fs dir _ _ 0%Z Hp).
  by rewrite (scan_checkpoints_ext fs fs' dir _ 0%Z (conj Hd He)).
Qed.

Lemma get_last_checkpoint_order_witness :
  ModelUtils.get_last_checkpoint
    (flat_dir (lit "out") [lit "checkpoint-5"; lit "checkpoint-010"] [])
    (lit "out")
  = ModelUtils.get_last_checkpoint
      (flat_dir (lit "out") [lit "checkpoint-010"; lit "checkpoint-5"] [])
      (lit "out").
Proof.
  apply get_last_checkpoint_order.
  - split; intros p; cbn;
      do 2 f_equal; apply bool_decide_ext; rewrite !elem_of_cons; tauto.
  - cbn. apply Permutation_swap.
Defined.

(** X9: what [get_last_checkpoint] returns, on a directory whose
    checkpoint subdirectories have names of at most 4300 characters.
    The flag is [True] exactly when the directory exists and holds
    'completed', and then no path is returned, whatever checkpoints
    there are.  A returned path is the directory joined with
    'checkpoint-<m>', where [m] is positive and is the integer [int]
    reads off some listed checkpoint subdirectory, and [int] reads every
    listed checkpoint subdirectory, as an integer that is at most [m].
    With no path and the flag [False], the directory is missing or every
    integer read is at most 0. *)
Theorem get_last_checkpoint_returns (fs : ModelUtils.filesystem)
    (dir : list N) (found : option (list N)) (is_completed : bool) :
  (forall names, ModelUtils.listdir fs dir = Ok names ->
     short_names fs dir names) ->
  ModelUtils.get_last_checkpoint fs dir = Ok (found, is_completed) ->
  (is_completed = true <->
     ModelUtils.isdir fs dir = true
     /\ ModelUtils.exists_ fs (ModelUtils.path_join dir (lit "completed")) = true)
  /\ (is_completed = true -> found = None)
  /\ (forall path, found = Some path ->
        exists names name m,
          ModelUtils.listdir fs dir = Ok names
          /\ name ∈ names
          /\ checkpoint_subdir fs dir name = true
          /\ name_step name = Ok m /\ (0 < m)%Z
          /\ path = ModelUtils.path_join dir (checkpoint_name m))
  /\ (ModelUtils.isdir fs dir = true -> is_completed = false ->
      exists names,
        ModelUtils.listdir fs dir = Ok names
        /\ forall name, name ∈ names ->
             checkpoint_subdir fs dir name = true ->
             exists n, name_step name = Ok n
               /\ match found with
                  | Some path =>
                      exists m,
                        path = ModelUtils.path_join dir (checkpoint_name m)
                        /\ (n <= m)%Z
                  | None => (n <= 0)%Z
                  end).
Proof.
  intros _. unfold ModelUtils.get_last_checkpoint.
  destruct (ModelUtils.isdir fs dir) eqn:Ed.
  2:{ intros [= <- <-]. repeat split; try done. by intros [? _]. }
  destruct (ModelUtils.exists_ fs _) eqn:Ee.
  { intros [= <- <-]. repeat split; done. }
  destruct (ModelUtils.listdir fs dir) as [names|e] eqn:El; [|done].
  cbn [bind].
  destruct (scan_checkpoints_cases fs dir names 0%Z)
    as [[-> _]|(m & -> & Hle & Hor & Hall)]; [done|].
  cbn [bind]. destruct (Z.eqb_spec m 0) as [->|Hm].
  - intros [= <- <-]. split; [split; [done|by intros [_ ?]]|].
    split; [done|]. split; [done|]. intros _ _. exists names.
    split; [done|]. intros name Hin Hsub.
    destruct (Hall name Hin Hsub) as (n & Hn & Hnm). by exists n.
  - intros [= <- <-]. split; [split; [done|by intros [_ ?]]|].
    split; [done|]. split.
    + intros path [= <-].
      destruct Hor as [->|(name & Hin & Hsub & Hst)]; [done|].
      exists names, name, m. repeat split; try done. lia.
    + intros _ _. exists names. split; [done|]. intros name Hin Hsub.
      destruct (Hall name Hin Hsub) as (n & Hn & Hnm).
      exists n. split; [done|]. by exists m.
Qed.

Lemma get_last_checkpoint_returns_witness :
  exists names name m,
    ModelUtils.listdir dir_two_checkpoints (lit "out") = Ok names
    /\ name ∈ names
    /\ checkpoint_subdir dir_two_checkpoints (lit "out") name = true
    /\ name_step name = Ok m /\ (0 < m)%Z
    /\ lit "out/checkpoint-10"
       = ModelUtils.path_join (lit "out") (checkpoint_name m).
Proof.
  destruct (get_last_checkpoint_returns dir_two_checkpoints (lit "out")
              (Some (lit "out/checkpoint-10")) false) as (_ & _ & H & _).
  - intros names [= <-] name Hin _.
    repeat (apply elem_of_cons in Hin as [->|Hin]; [vm_compute; lia|]).
    by apply elem_of_nil in Hin.
  - reflexivity.
  - apply (H (lit "out/checkpoint-10")). reflexivity.
Defined.



(** * [SavePeftModelCallback] and [get_last_checkpoint] *)







(** X12: [on_train_end] marks the output directory the way
    [get_last_checkpoint] reads it: it touches one file, before it saves
    the model, and in every file system in which the output directory
    and that file exist, [get_last_checkpoint] on the output directory
    returns no path and the flag [True], whatever checkpoints the
    directory holds. *)
Theorem on_train_end_marks_completed (path_exists : list N -> bool)
    (args : SavePeftModelCallback.TrainingArguments)
    (state : SavePeftModelCallback.TrainerState) :
  exists fname rest,
    SavePeftModelCallback.on_train_end path_exists args state
    = SavePeftModelCallback.Touch fname :: rest
    /\ (forall f, SavePeftModelCallback.Touch f ∉ rest)
    /\ forall fs : ModelUtils.filesystem,
         ModelUtils.isdir fs (SavePeftModelCallback.output_dir args) = true ->
         ModelUtils.exists_ fs fname = true ->
         ModelUtils.get_last_checkpoint fs (SavePeftModelCallback.output_dir args)
         = Ok (None, true).
Proof.
  eexists _, _. split; [reflexivity|]. split.
  - intros f. unfold SavePeftModelCallback.save_model.
    destruct (path_exists _); intros Hin;
      repeat (apply elem_of_cons in Hin as [?|Hin]; [done|]);
      by apply elem_of_nil in Hin.
  - intros fs Hd He. unfold ModelUtils.get_last_checkpoint. by rewrite Hd, He.
Qed.

Lemma on_train_end_marks_completed_witness :
  ModelUtils.get_last_checkpoint
    (flat_dir (lit "out") [lit "checkpoint-5"] [lit "completed"]) (lit "out")
  = Ok (None, true).
Proof.
  destruct (on_train_end_marks_completed (fun _ => false)
              {| SavePeftModelCallback.output_dir := lit "out" |} (at_step 5))
    as (fname & rest & Heq & _ & H).
  injection Heq as <- _.
  apply (H (flat_dir (lit "out") [lit "checkpoint-5"] [lit "completed"]));
    reflexivity.
Defined.

(** * The parameter reports *)

Section counting.

Context {D : Type} `{EqDecision D}.
Implicit Types (params : list (Parameters.parameter D)).

Lemma numels_cons keep (p : Parameters.parameter D) params :
  numels keep (p :: params)
  = ((if keep p then Z.of_N (Parameters.numel p) else 0) + numels keep params)%Z.
Proof.
  unfold numels. rewrite filter_cons.
  destruct (keep p); [by rewrite decide_True|rewrite decide_False; done].
Qed.

Lemma numels_nonneg keep params : (0 <= numels keep params)%Z.
Proof.
  induction params as [|p params IH]; [done|].
  rewrite numels_cons. destruct (keep p); lia.
Qed.

Lemma numels_le keep params :
  (numels keep params <= numels (fun _ => true) params)%Z.
Proof.
  induction params as [|p params IH]; [done|].
  rewrite !numels_cons. destruct (keep p); lia.
Qed.

Lemma count_parameters_spec params trainable all :
  Parameters.count_parameters params trainable all
  = ((trainable + numels Parameters.requires_grad params)%Z,
     (all + numels (fun _ => true) params)%Z).
Proof.
  revert trainable all. induction params as [|p params IH]; intros trainable all.
  - cbn. f_equal; lia.
  - cbn [Parameters.count_parameters]. rewrite IH, !numels_cons.
    destruct (Parameters.requires_grad p); f_equal; lia.
Qed.

(** X13: [print_trainable_parameters] raises [ZeroDivisionError], and
    prints nothing, exactly when the parameters of the model hold no
    element at all: a model without parameters, or with empty tensors
    only. *)
Theorem print_trainable_parameters_raises (bits : Z) params :
  Parameters.print_trainable_parameters bits params
  = Parameters.ZeroDivisionError
  <-> Forall (fun p => Parameters.numel p = 0%N) params.
Proof.
  unfold Parameters.print_trainable_parameters.
  rewrite count_parameters_spec. rewrite !Z.add_0_l.
  assert (numels (fun _ => true) params = 0%Z
          <-> Forall (fun p => Parameters.numel p = 0%N) params) as <-.
  { induction params as [|p params IH].
    - split; [constructor|done].
    - rewrite numels_cons, Forall_cons, <- IH.
      pose proof (numels_nonneg (fun _ => true) params). lia. }
  destruct (Z.eqb_spec (numels (fun _ => true) params) 0); split; done.
Qed.

(** X14: when the model holds at least one parameter element,
    [print_trainable_parameters] reports as total the sum of the element
    counts of all parameters and as trainable the sum over the
    parameters that require gradients, halved when [args.bits] is 4; the
    percentage lies between 0 and 100, and between 0 and 50 when
    [args.bits] is 4, even if every parameter is trainable. *)
Theorem print_trainable_parameters_report (bits : Z) params :
  (0 < numels (fun _ => true) params)%Z ->
  exists s,
    Parameters.print_trainable_parameters bits params = Parameters.Printed s
    /\ Parameters.all_param s = numels (fun _ => true) params
    /\ (Parameters.trainable_params s
        == if (bits =? 4)%Z
           then inject_Z (numels Parameters.requires_grad params) / 2
           else inject_Z (numels Parameters.requires_grad params))%Q
    /\ (0 <= Parameters.trainable_percent s)%Q
    /\ (Parameters.trainable_percent s <= if (bits =? 4)%Z then 50 else 100)%Q.
Proof.
  intros Hpos. unfold Parameters.print_trainable_parameters.
  rewrite count_parameters_spec. rewrite !Z.add_0_l.
  pose proof (numels_nonneg Parameters.requires_grad params) as H0.
  pose proof (numels_le Parameters.requires_grad params) as Hle.
  set (t := numels Parameters.requires_grad params) in *.
  set (a := numels (fun _ => true) params) in *.
  destruct (Z.eqb_spec a 0) as [|_]; [lia|].
  eexists. split; [reflexivity|].
  cbn [Parameters.all_param Parameters.trainable_params
       Parameters.trainable_percent].
  split; [done|]. split; [done|].
  assert (Ha : (0 < inject_Z a)%Q) by (unfold Qlt; simpl; lia).
  destruct (bits =? 4)%Z.
  - split.
    + apply Qle_shift_div_l; [done|]. unfold Qle. simpl. lia.
    + apply Qle_shift_div_r; [done|]. unfold Qle. simpl. lia.
  - split.
    + apply Qle_shift_div_l; [done|]. unfold Qle. simpl. lia.
    + apply Qle_shift_div_r; [done|]. unfold Qle. simpl. lia.
Qed.

End counting.

Lemma print_trainable_parameters_raises_witness :
  Parameters.print_trainable_parameters 4
    [ {| Parameters.numel := 0; Parameters.requires_grad := true;
         Parameters.dtype := "float32"%string |} ]
  = Parameters.ZeroDivisionError.
Proof.
  apply print_trainable_parameters_raises.
  constructor; [reflexivity|constructor].
Defined.

Lemma print_trainable_parameters_report_witness :
  exists s,
    Parameters.print_trainable_parameters 4 params_adapter
    = Parameters.Printed s
    /\ Parameters.all_param s = 64%Z
    /\ (Parameters.trainable_params s == 6)%Q
    /\ (Parameters.trainable_percent s <= 50)%Q.
Proof.
  destruct (print_trainable_parameters_report 4 params_adapter)
    as (s & Hs & Ha & Ht & _ & Hp).
  - reflexivity.
  - exists s. split; [exact Hs|]. split; [exact Ha|]. split; [|exact Hp].
    rewrite Ht. reflexivity.
Defined.

(** * [verify_dtypes] *)

Section dtypes.

Context {D : Type} `{EqDecision D}.
Implicit Types (params : list (Parameters.parameter D)) (dtypes : list (D * Z)).

Lemma sum_foldr (values : list Z) :
  Parameters.sum values = foldr Z.add 0%Z values.
Proof.
  unfold Parameters.sum.
  assert (forall acc, foldl Z.add acc values = (acc + foldr Z.add 0 values)%Z) as H.
  { induction values as [|v values IH]; intros acc; cbn; [lia|].
    rewrite IH. lia. }
  by rewrite H.
Qed.

Lemma tally_keys dtypes k n :
  (Parameters.tally dtypes k n).*1
  = if decide (k ∈ dtypes.*1) then dtypes.*1 else dtypes.*1 ++ [k].
Proof.
  induction dtypes as [|[k' v] dtypes IH]; [done|].
  cbn [Parameters.tally]. destruct (decide (k' = k)) as [->|Hne].
  - cbn. rewrite decide_True; [done|left].
  - cbn [fmap list_fmap fst]. fold (fmap (M:=list) (@fst D Z)). rewrite IH.
    destruct (decide (k ∈ dtypes.*1)) as [Hin|Hin].
    + rewrite decide_True; [done|by right].
    + rewrite decide_False; [done|].
      intros [?|?]%elem_of_cons; congruence.
Qed.

Lemma tally_held dtypes k n k' :
  held (Parameters.tally dtypes k n) k'
  = (held dtypes k' + if decide (k = k') then n else 0)%Z.
Proof.
  induction dtypes as [|[k0 v] dtypes IH].
  - cbn. destruct (decide (k = k')); lia.
  - cbn [Parameters.tally]. destruct (decide (k0 = k)) as [->|Hne]; cbn.
    + destruct (decide (k = k')); lia.
    + destruct (decide (k0 = k')) as [->|]; [|done].
      rewrite decide_False by congruence. lia.
Qed.

Lemma tally_sum dtypes k n :
  foldr Z.add 0%Z (Parameters.tally dtypes k n).*2
  = (foldr Z.add 0 dtypes.*2 + n)%Z.
Proof.
  induction dtypes as [|[k0 v] dtypes IH]; cbn; [lia|].
  destruct (decide (k0 = k)); cbn; [lia|].
  fold (fmap (M:=list) (@snd D Z)). rewrite IH. lia.
Qed.

Lemma count_dtypes_keys params dtypes :
  (Parameters.count_dtypes params dtypes).*1
  = dtypes.*1
    ++ filter (fun k => k ∉ dtypes.*1) (first_seen (map Parameters.dtype params)).
Proof.
  revert dtypes. induction params as [|p params IH]; intros dtypes.
  { cbn. by rewrite app_nil_r. }
  cbn [Parameters.count_dtypes map first_seen]. rewrite IH, tally_keys.
  set (k := Parameters.dtype p).
  set (l := first_seen (map Parameters.dtype params)).
  rewrite filter_cons, list_filter_filter.
  destruct (decide (k ∈ dtypes.*1)) as [Hin|Hin].
  - rewrite decide_False by (intros Hn; by apply Hn).
    f_equal. apply list_filter_iff. intros y. split; [|by intros [? _]].
    intros Hy. split; [done|]. intros ->. by apply Hy.
  - rewrite decide_True by done. rewrite <- app_assoc. cbn [app].
    do 2 f_equal. apply list_filter_iff. intros y.
    rewrite not_elem_of_app, list_elem_of_singleton. tauto.
Qed.

Lemma count_dtypes_held params dtypes k :
  held (Parameters.count_dtypes params dtypes) k
  = (held dtypes k
     + numels (fun p => bool_decide (Parameters.dtype p = k)) params)%Z.
Proof.
  revert dtypes. induction params as [|p params IH]; intros dtypes.
  { cbn. unfold numels. cbn. lia. }
  cbn [Parameters.count_dtypes]. rewrite IH, tally_held, numels_cons.
  destruct (decide (Parameters.dtype p = k)) as [Hk|Hk].
  - rewrite bool_decide_eq_true_2 by done. lia.
  - rewrite bool_decide_eq_false_2 by done. lia.
Qed.

Lemma count_dtypes_sum params dtypes :
  foldr Z.add 0%Z (Parameters.count_dtypes params dtypes).*2
  = (foldr Z.add 0 dtypes.*2 + numels (fun _ => true) params)%Z.
Proof.
  revert dtypes. induction params as [|p params IH]; intros dtypes.
  { cbn. unfold numels. cbn. lia. }
  cbn [Parameters.count_dtypes]. rewrite IH, tally_sum, numels_cons. lia.
Qed.

Lemma first_seen_NoDup (l : list D) : NoDup (first_seen l).
Proof.
  induction l as [|x l IH]; cbn; [constructor|].
  constructor; [|by apply NoDup_filter].
  rewrite list_elem_of_filter. by intros [? _].
Qed.

Lemma first_seen_elem (l : list D) x : x ∈ first_seen l <-> x ∈ l.
Proof.
  induction l as [|y l IH]; cbn; [done|].
  rewrite !elem_of_cons, list_elem_of_filter, IH.
  destruct (decide (x = y)); naive_solver.
Qed.

Lemma held_lookup dtypes k v :
  NoDup dtypes.*1 -> (k, v) ∈ dtypes -> held dtypes k = v.
Proof.
  induction dtypes as [|[k0 v0] dtypes IH]; [by intros _ ?%elem_of_nil|].
  cbn. intros [Hk0 Hnd]%NoDup_cons [[= -> ->]|Hin]%elem_of_cons.
  - by rewrite decide_True.
  - destruct (decide (k0 = k)) as [->|]; [|by apply IH].
    exfalso. apply Hk0. apply list_elem_of_fmap. by exists (k, v).
Qed.

Lemma filter_nothing (l : list D) : filter (fun k => k ∉ []) l = l.
Proof.
  induction l as [|x l IH]; [done|].
  rewrite filter_cons, decide_True, IH; [done|]. by intros ?%elem_of_nil.
Qed.

Lemma print_shares_printed dtypes total :
  total <> 0%Z ->
  Parameters.print_shares dtypes total
  = Parameters.Printed
      (map (fun kv => {| Parameters.share_dtype := kv.1;
                         Parameters.share_count := kv.2;
                         Parameters.share_total := total |}) dtypes).
Proof.
  intros Ht. induction dtypes as [|[k v] dtypes IH]; [done|].
  cbn [Parameters.print_shares]. destruct (Z.eqb_spec total 0); [done|].
  by rewrite IH.
Qed.

(** X15: [verify_dtypes] raises [ZeroDivisionError] exactly when the
    model has parameters but they hold no element at all; for a model
    without parameters it prints nothing and returns. *)
Theorem verify_dtypes_raises params :
  (Parameters.verify_dtypes params = Parameters.ZeroDivisionError
   <-> params <> [] /\ Forall (fun p => Parameters.numel p = 0%N) params)
  /\ Parameters.verify_dtypes (D:=D) [] = Parameters.Printed [].
Proof.
  split; [|done]. unfold Parameters.verify_dtypes.
  rewrite sum_foldr, count_dtypes_sum. cbn [fmap list_fmap foldr].
  rewrite Z.add_0_l.
  assert (numels (fun _ => true) params = 0%Z
          <-> Forall (fun p => Parameters.numel p = 0%N) params) as <-.
  { induction params as [|p params IH].
    - split; [constructor|done].
    - rewrite numels_cons, Forall_cons, <- IH.
      pose proof (numels_nonneg (fun _ => true) params). lia. }
  destruct (Z.eq_dec (numels (fun _ => true) params) 0%Z) as [E|E].
  - rewrite E. destruct params as [|p params]; [by split; [|intros [? _]]|].
    assert ((Parameters.count_dtypes (p :: params) []).*1 <> []) as Hk.
    { rewrite count_dtypes_keys. cbn [fmap list_fmap app map first_seen].
      rewrite filter_cons, decide_True; [done|]. by intros ?%elem_of_nil. }
    destruct (Parameters.count_dtypes (p :: params) []) as [|[k v] rest];
      [done|].
    cbn. split; [by split|done].
  - rewrite print_shares_printed by done. split; [done|]. by intros [_ ?].
Qed.

(** X16: when [verify_dtypes] prints, it prints one line per dtype, in
    the order in which the dtypes first occur among the parameters; the
    count of a line is the sum of the element counts of the parameters
    of that dtype, every line divides by the sum of the element counts
    of all parameters, and the counts of the lines add up to that
    total. *)
Theorem verify_dtypes_lines params lines :
  Parameters.verify_dtypes params = Parameters.Printed lines ->
  map Parameters.share_dtype lines = first_seen (map Parameters.dtype params)
  /\ Forall
       (fun line =>
          Parameters.share_count line
          = numels (fun p => bool_decide
                               (Parameters.dtype p = Parameters.share_dtype line))
              params
          /\ Parameters.share_total line = numels (fun _ => true) params)
       lines
  /\ foldr Z.add 0%Z (map Parameters.share_count lines)
     = numels (fun _ => true) params.
Proof.
  unfold Parameters.verify_dtypes.
  rewrite sum_foldr, count_dtypes_sum. cbn [fmap list_fmap foldr].
  rewrite Z.add_0_l.
  pose proof (count_dtypes_keys params []) as Hk.
  cbn [fmap list_fmap app] in Hk.
  rewrite filter_nothing in Hk.
  pose proof (count_dtypes_sum params []) as Hs.
  cbn [fmap list_fmap foldr] in Hs. rewrite Z.add_0_l in Hs.
  pose proof (fun k => count_dtypes_held params [] k) as Hh.
  cbn [held] in Hh.
  set (dtypes := Parameters.count_dtypes params []) in *.
  set (total := numels (fun _ => true) params) in *.
  destruct (Z.eq_dec total 0%Z) as [E|E].
  - rewrite E. destruct dtypes as [|[k v] rest] eqn:Ed.
    + intros [= <-]. cbn in *. by rewrite <- Hk.
    + done.
  - rewrite print_shares_printed by done. intros [= <-].
    split; [|split].
    + rewrite <- Hk. rewrite map_map. cbn. done.
    + apply Forall_forall. intros line [kv [-> Hin]]%list_elem_of_fmap.
      cbn. split; [|done]. pose proof (Hh kv.1) as Hv.
      rewrite Z.add_0_l in Hv. rewrite <- Hv.
      symmetry. apply held_lookup; [|by destruct kv].
      rewrite Hk. apply first_seen_NoDup.
    + rewrite map_map. cbn. exact Hs.
Qed.

End dtypes.

Lemma verify_dtypes_raises_witness :
  Parameters.verify_dtypes
    [ {| Parameters.numel := 0; Parameters.requires_grad := true;
         Parameters.dtype := "float32"%string |} ]
  = Parameters.ZeroDivisionError.
Proof.
  apply verify_dtypes_raises. split; [discriminate|].
  constructor; [reflexivity|constructor].
Defined.

Lemma verify_dtypes_lines_witness :
  map Parameters.share_dtype
    [ {| Parameters.share_dtype := "uint8"%string;
         Parameters.share_count := 48; Parameters.share_total := 64 |};
      {| Parameters.share_dtype := "float32"%string;
         Parameters.share_count := 12; Parameters.share_total := 64 |};
      {| Parameters.share_dtype := "float16"%string;
         Parameters.share_count := 4; Parameters.share_total := 64 |} ]
  = first_seen (map Parameters.dtype params_adapter).
Proof.
  refine (proj1 (verify_dtypes_lines params_adapter _ _)). reflexivity.
Defined.

(** * Special tokens and embedding rows *)

Lemma assign_last_lookup {Row} n (v : Row) rows i :
  SpecialTokens.assign_last n v rows !! i
  = (fun r => if bool_decide (length rows - n <= i) then v else r)
    <$> rows !! i.
Proof. unfold SpecialTokens.assign_last. by rewrite list_lookup_imap. Qed.

Lemma assign_last_length {Row} n (v : Row) rows :
  length (SpecialTokens.assign_last n v rows) = length rows.
Proof. unfold SpecialTokens.assign_last. by rewrite length_imap. Qed.

(** The rows of a matrix after [rows[-n:] = mean(rows[:-n])]. *)
Lemma assign_last_mean {Row} (mean : list Row -> Row) n rows :
  let rows' :=
    SpecialTokens.assign_last n (mean (SpecialTokens.all_but_last n rows)) rows in
  length rows' = length rows
  /\ (forall i, i < length rows - n -> rows' !! i = rows !! i)
  /\ (forall i, length rows - n <= i < length rows ->
        rows' !! i = Some (mean (take (length rows - n) rows))).
Proof.
  cbn zeta. split; [apply assign_last_length|]. split.
  - intros i Hi. rewrite assign_last_lookup.
    destruct (rows !! i) as [r|]; [|done]. cbn.
    by rewrite bool_decide_eq_false_2 by lia.
  - intros i [Hi Hlt]. rewrite assign_last_lookup.
    destruct (lookup_lt_is_Some_2 rows i Hlt) as [r ->]. cbn.
    by rewrite bool_decide_eq_true_2 by lia.
Qed.

Section tokens.

Variables Tokenizer Row : Type.
Variables pad_token eos_token bos_token unk_token
  : Tokenizer -> option (list N).
Variable add_special_tokens
  : list (string * list N) -> Tokenizer -> Tokenizer * Z.
Variable len : Tokenizer -> nat.
Variable resize_token_embeddings
  : nat -> SpecialTokens.model Row -> SpecialTokens.model Row.
Variable mean : list Row -> Row.
Variables DEFAULT_PAD_TOKEN DEFAULT_EOS_TOKEN DEFAULT_BOS_TOKEN
  DEFAULT_UNK_TOKEN : list N.

Local Abbreviation smart :=
  (SpecialTokens.smart_tokenizer_and_embedding_resize Tokenizer Row
     add_special_tokens len resize_token_embeddings mean).

Local Abbreviation if_missing :=
  (SpecialTokens.add_special_tokens_if_missing Tokenizer Row
     pad_token eos_token bos_token unk_token
     add_special_tokens len resize_token_embeddings mean
     DEFAULT_PAD_TOKEN DEFAULT_EOS_TOKEN DEFAULT_BOS_TOKEN DEFAULT_UNK_TOKEN).

Lemma smart_tokenizer d tok m :
  (smart d tok m).1 = (add_special_tokens d tok).1.
Proof.
  unfold SpecialTokens.smart_tokenizer_and_embedding_resize.
  destruct (add_special_tokens d tok) as [tok' n]. by destruct (0 <? n)%Z.
Qed.

(** X17: [smart_tokenizer_and_embedding_resize] returns the tokenizer
    with the tokens added and the embeddings resized to its length.
    When [n > 0] tokens were added, the last [n] rows of the resized
    input and output matrices are each overwritten with the mean of the
    rows ahead of them, and those rows are left as the resize left them
    (when [n] reaches the number of rows, every row is overwritten with
    the mean of no row); when no token was added the resized matrices
    are not touched. *)
Theorem smart_resize_rows (d : list (string * list N)) (tok : Tokenizer)
    (m : SpecialTokens.model Row) :
  let tok' := (add_special_tokens d tok).1 in
  let n := (add_special_tokens d tok).2 in
  let resized := resize_token_embeddings (len tok') m in
  let m' := (smart d tok m).2 in
  (smart d tok m).1 = tok'
  /\ ((n <= 0)%Z -> m' = resized)
  /\ ((0 < n)%Z ->
      forall (matrix : SpecialTokens.model Row -> list Row),
        matrix = SpecialTokens.input_embeddings
        \/ matrix = SpecialTokens.output_embeddings ->
        let old := length (matrix resized) - Z.to_nat n in
        length (matrix m') = length (matrix resized)
        /\ (forall i, i < old -> matrix m' !! i = matrix resized !! i)
        /\ (forall i, old <= i < length (matrix resized) ->
              matrix m' !! i = Some (mean (take old (matrix resized))))).
Proof.
  cbn zeta. split; [apply smart_tokenizer|].
  unfold SpecialTokens.smart_tokenizer_and_embedding_resize.
  destruct (add_special_tokens d tok) as [tok' n]. cbn [fst snd].
  destruct (Z.ltb_spec 0 n) as [Hn|Hn].
  - split; [lia|]. intros _ matrix [-> | ->]; cbn [snd
      SpecialTokens.input_embeddings SpecialTokens.output_embeddings];
      apply (assign_last_mean mean).
  - split; [done|lia].
Qed.

(** X18: given that the library call [add_special_tokens] sets the
    attributes named in its dict and keeps the others, after
    [add_special_tokens_if_missing] none of the four special tokens is
    missing: each one that was set is kept and each one that was [None]
    is the default; and when none was missing the tokenizer and the
    model are returned as they were, without any resize of the
    embeddings. *)
Theorem add_special_tokens_if_missing_sets (tok : Tokenizer)
    (m : SpecialTokens.model Row) :
  sets_attribute add_special_tokens "pad_token" pad_token ->
  sets_attribute add_special_tokens "eos_token" eos_token ->
  sets_attribute add_special_tokens "bos_token" bos_token ->
  sets_attribute add_special_tokens "unk_token" unk_token ->
  let tok' := (if_missing tok m).1 in
  pad_token tok' = Some (default DEFAULT_PAD_TOKEN (pad_token tok))
  /\ eos_token tok' = Some (default DEFAULT_EOS_TOKEN (eos_token tok))
  /\ bos_token tok' = Some (default DEFAULT_BOS_TOKEN (bos_token tok))
  /\ unk_token tok' = Some (default DEFAULT_UNK_TOKEN (unk_token tok))
  /\ (is_Some (pad_token tok) -> is_Some (eos_token tok) ->
      is_Some (bos_token tok) -> is_Some (unk_token tok) ->
      if_missing tok m = (tok, m)).
Proof.
  intros Hpad Heos Hbos Hunk. cbn zeta.
  unfold SpecialTokens.add_special_tokens_if_missing,
    SpecialTokens.special_tokens_dict.
  destruct (pad_token tok) as [p|] eqn:Ep, (eos_token tok) as [e|] eqn:Ee,
           (bos_token tok) as [b|] eqn:Eb, (unk_token tok) as [u|] eqn:Eu;
    cbn [app length Nat.ltb Nat.leb default];
    try (rewrite smart_tokenizer, Hpad, Heos, Hbos, Hunk;
         rewrite ?Ep, ?Ee, ?Eb, ?Eu;
         repeat split; try reflexivity;
         intros [? ?] [? ?] [? ?] [? ?]; discriminate).
  cbn [fst]. rewrite Ep, Ee, Eb, Eu. by repeat split.
Qed.

End tokens.

Lemma smart_resize_rows_witness :
  let m' :=
    (SpecialTokens.smart_tokenizer_and_embedding_resize ToyTokenizer.t Q
       ToyTokenizer.add_special_tokens ToyTokenizer.len
       ToyTokenizer.resize_token_embeddings ToyTokenizer.mean
       [("pad_token"%string, lit "[PAD]")] ToyTokenizer.llama
       ToyTokenizer.llama_model).2 in
  length (SpecialTokens.input_embeddings m') = 5
  /\ SpecialTokens.input_embeddings m' !! 3 = Some 6%Q
  /\ SpecialTokens.input_embeddings m' !! 4
     = Some (ToyTokenizer.mean [1; 2; 3; 6]%Q).
Proof.
  intros m'.
  destruct (smart_resize_rows ToyTokenizer.t Q ToyTokenizer.add_special_tokens
              ToyTokenizer.len ToyTokenizer.resize_token_embeddings
              ToyTokenizer.mean [("pad_token"%string, lit "[PAD]")]
              ToyTokenizer.llama ToyTokenizer.llama_model)
    as (_ & _ & H).
  destruct (H ltac:(reflexivity) SpecialTokens.input_embeddings
              ltac:(left; reflexivity)) as (Hlen & Hold & Hnew).
  split; [exact Hlen|]. split.
  - apply (Hold 3). vm_compute. lia.
  - apply (Hnew 4). vm_compute. lia.
Defined.

Lemma toy_sets_attribute key attribute :
  (forall d tok,
     attribute (ToyTokenizer.add_special_tokens d tok).1
     = ToyTokenizer.set key d (attribute tok)) ->
  sets_attribute ToyTokenizer.add_special_tokens key attribute.
Proof.
  intros H d tok. rewrite H. unfold ToyTokenizer.set, ToyTokenizer.lookup.
  by destruct (list_find _ d) as [[? [? ?]]|].
Qed.

Lemma add_special_tokens_if_missing_sets_witness :
  let tok' :=
    (SpecialTokens.add_special_tokens_if_missing ToyTokenizer.t Q
       ToyTokenizer.pad ToyTokenizer.eos ToyTokenizer.bos ToyTokenizer.unk
       ToyTokenizer.add_special_tokens ToyTokenizer.len
       ToyTokenizer.resize_token_embeddings ToyTokenizer.mean
       (lit "[PAD]") (lit "</s>") (lit "<s>") (lit "<unk>")
       ToyTokenizer.llama ToyTokenizer.llama_model).1 in
  ToyTokenizer.pad tok' = Some (lit "[PAD]")
  /\ ToyTokenizer.eos tok' = Some (lit "</s>").
Proof.
  intros tok'.
  destruct (add_special_tokens_if_missing_sets ToyTokenizer.t Q
              ToyTokenizer.pad ToyTokenizer.eos ToyTokenizer.bos
              ToyTokenizer.unk ToyTokenizer.add_special_tokens ToyTokenizer.len
              ToyTokenizer.resize_token_embeddings ToyTokenizer.mean
              (lit "[PAD]") (lit "</s>") (lit "<s>") (lit "<unk>")
              ToyTokenizer.llama ToyTokenizer.llama_model)
    as (Hp & He & _).
  - apply toy_sets_attribute. reflexivity.
  - apply toy_sets_attribute. reflexivity.
  - apply toy_sets_attribute. reflexivity.
  - apply toy_sets_attribute. reflexivity.
  - split; [exact Hp|exact He].
Defined.

(** * The MMLU evaluation callback *)

Section mmlu.

Variables Trainer Tokenizer DatasetDict Dataset Metric : Type.
Variable load_dataset : list N -> list N -> result DatasetDict.
Variable remove_columns : list N -> DatasetDict -> result DatasetDict.
Variable getitem : DatasetDict -> list N -> result Dataset.
Variable select_range : Z -> Dataset -> result Dataset.
Variable input_ids : Tokenizer -> list N -> list Z.
Variable evaluate_load : list N -> result Metric.
Variable evaluation :
  gmap string (MMLUEvalCallback.value Trainer Tokenizer Dataset Metric) ->
  MMLUEvalCallback.value Trainer Tokenizer Dataset Metric ->
  MMLUEvalCallback.value Trainer Tokenizer Dataset Metric -> result unit.

Local Abbreviation new_callback :=
  (MMLUEvalCallback.init Trainer Tokenizer DatasetDict Dataset Metric
     load_dataset remove_columns getitem select_range input_ids evaluate_load).

Lemma bind_ok {A B} (r : result A) (k : A -> result B) b :
  bind r k = Ok b -> exists a, r = Ok a /\ k a = Ok b.
Proof. destruct r as [a|e]; [by exists a|done]. Qed.

(** The attributes an instance has when [__init__] returns. *)
Lemma init_attributes trainer tokenizer data_dir args self :
  new_callback trainer tokenizer data_dir args = Ok self ->
  dom self = {[ "trainer"; "tokenizer"; "abcd_idx"; "accuracy" ]}.
Proof.
  unfold MMLUEvalCallback.init. intros H.
  repeat (apply bind_ok in H as (? & _ & H)).
  injection H as <-. rewrite !dom_insert_L, dom_empty_L. set_solver.
Qed.

(** X19: [MMLUEvalCallback.__init__] never stores the dataset it loads:
    an instance it returns has the attributes 'trainer', 'tokenizer',
    'abcd_idx' and 'accuracy' only, so [on_evaluate], whose first
    statement reads [self.mmlu_dataset], raises [AttributeError] on it
    before any evaluation is done. *)
Theorem on_evaluate_unset_dataset (trainer : Trainer) (tokenizer : Tokenizer)
    (data_dir : list N) (args : MMLUEvalCallback.arguments)
    (self : gmap string (MMLUEvalCallback.value Trainer Tokenizer Dataset Metric)) :
  new_callback trainer tokenizer data_dir args = Ok self ->
  self !! "mmlu_dataset" = None
  /\ MMLUEvalCallback.on_evaluate Trainer Tokenizer Dataset Metric evaluation self
     = Raise AttributeError.
Proof.
  intros H. pose proof (init_attributes _ _ _ _ _ H) as Hdom.
  assert (self !! "mmlu_dataset" = None) as Hd.
  { apply not_elem_of_dom. rewrite Hdom. set_solver. }
  assert (is_Some (self !! "trainer")) as [t Ht].
  { apply elem_of_dom. rewrite Hdom. set_solver. }
  split; [done|].
  unfold MMLUEvalCallback.on_evaluate, MMLUEvalCallback.getattr.
  by rewrite Ht, Hd.
Qed.

(** X20: [MMLUEvalCallback.__init__] raises [ValueError] for every value
    of [args.mmlu_dataset] other than 'mmlu-zs', 'mmlu' and 'mmlu-fs',
    whatever the data directory holds. *)
Theorem init_invalid_dataset (trainer : Trainer) (tokenizer : Tokenizer)
    (data_dir : list N) (args : MMLUEvalCallback.arguments) :
  MMLUEvalCallback.mmlu_dataset args <> lit "mmlu-zs" ->
  MMLUEvalCallback.mmlu_dataset args <> lit "mmlu" ->
  MMLUEvalCallback.mmlu_dataset args <> lit "mmlu-fs" ->
  new_callback trainer tokenizer data_dir args = Raise ValueError.
Proof.
  intros Hzs Hm Hfs. unfold MMLUEvalCallback.init, str_eqb.
  by rewrite !bool_decide_eq_false_2 by done.
Qed.

End mmlu.

Lemma on_evaluate_unset_dataset_witness :
  let init :=
    MMLUEvalCallback.init unit unit unit unit unit
      (fun _ _ => Ok tt) (fun _ _ => Ok tt) (fun _ _ => Ok tt)
      (fun _ _ => Ok tt) (fun _ _ => [319%Z]) (fun _ => Ok tt) tt tt
      (lit "data")
      {| MMLUEvalCallback.mmlu_dataset := lit "mmlu-fs";
         MMLUEvalCallback.mmlu_split := lit "eval";
         MMLUEvalCallback.max_mmlu_samples := None |} in
  exists self,
    init = Ok self
    /\ MMLUEvalCallback.on_evaluate unit unit unit unit
         (fun _ _ _ => Ok tt) self
       = Raise AttributeError.
Proof.
  intros init. eexists. split; [reflexivity|].
  apply (on_evaluate_unset_dataset unit unit unit unit unit
           (fun _ _ => Ok tt) (fun _ _ => Ok tt) (fun _ _ => Ok tt)
           (fun _ _ => Ok tt) (fun _ _ => [319%Z]) (fun _ => Ok tt)
           (fun _ _ _ => Ok tt) tt tt (lit "data")
           {| MMLUEvalCallback.mmlu_dataset := lit "mmlu-fs";
              MMLUEvalCallback.mmlu_split := lit "eval";
              MMLUEvalCallback.max_mmlu_samples := None |}).
  reflexivity.
Defined.

Lemma init_invalid_dataset_witness :
  MMLUEvalCallback.init unit unit unit unit unit
    (fun _ _ => Ok tt) (fun _ _ => Ok tt) (fun _ _ => Ok tt)
    (fun _ _ => Ok tt) (fun _ _ => [319%Z]) (fun _ => Ok tt) tt tt
    (lit "data")
    {| MMLUEvalCallback.mmlu_dataset := lit "MMLU";
       MMLUEvalCallback.mmlu_split := lit "eval";
       MMLUEvalCallback.max_mmlu_samples := None |}
  = Raise ValueError.
Proof. apply init_invalid_dataset; discriminate. Defined.

